(** * Default search plugin: index synchronisation and MySQL query strategy

    A shallow embedding of
      - [search-strategy/mysql-search-strategy.ts]  (class MysqlSearchStrategy)
      - [fulltext-search.service.ts]                (class FulltextSearchService)
    together with the properties their specification states about them.

    Conventions.
      - [ID = string | number] is represented by its [toString()] form; the
        code uses ids only through equality and [toString()].
      - A JavaScript string is a Rocq [string]; [String.length] stands for
        [.length].
      - SQL numbers are exact rationals ([Q]), prices are integers ([Z]).
      - Asynchronous calls are awaited one after the other in the source; they
        are modelled sequentially. *)

From Stdlib Require Import QArith ZArith Ascii String List Sorted Permutation.
From stdpp Require Import gmap strings list fin_maps.
Close Scope Q_scope.

(* ===================================================================== *)
(** * Data model                                                          *)
(* ===================================================================== *)

Abbreviation ID := string (only parsing).
Abbreviation LanguageCode := string (only parsing).
Abbreviation CurrencyCode := string (only parsing).

Definition ID_toString (id : ID) : string := id.

(** [SearchIndexItem]: one denormalised row per (variant, language). *)
Record SearchIndexItem := mkSearchIndexItem {
  sku : string;
  slug : string;
  price : Z;
  languageCode : LanguageCode;
  productVariantId : ID;
  productId : ID;
  productName : string;
  description : string;
  productVariantName : string;
  productPreview : string;
  productVariantPreview : string;
  facetIds : list string;
  facetValueIds : list string
}.

Inductive SortOrder := ASC | DESC.

Record SearchResultSortParameter := {
  sort_name : option SortOrder;
  sort_price : option SortOrder
}.

(** [SearchInput]; every field is optional in the schema. *)
Record SearchInput := {
  i_term : option string;
  i_facetIds : option (list string);
  i_take : option nat;
  i_skip : option nat;
  i_sort : option SearchResultSortParameter;
  i_groupByProduct : option bool
}.

Record Channel := { currencyCode : CurrencyCode }.

Record RequestContext := {
  ctx_languageCode : LanguageCode;
  channel : Channel
}.

(* ===================================================================== *)
(** * The SQL fragment built by the strategy                              *)
(* ===================================================================== *)

(** Text columns of [search_index_item] the strategy refers to. *)
Inductive TextColumn := col_sku | col_productName | col_productVariantName | col_description.

(** Conditions.  Named parameters ([:term], [:like_term], [:_<id>]) are
    substituted where the fragment is created: the three families of names
    are pairwise distinct and a name determines its value, so binding them
    late, by name, yields the same condition. *)
Inductive SqlCond :=
| SqlTrue                                            (* 1 = 1 *)
| SqlLike (c : TextColumn) (pattern : string)        (* c LIKE :like_term *)
| SqlMatch (c : TextColumn) (against : string)       (* MATCH (c) AGAINST (:term) *)
| SqlFindInSet (needle : string)                     (* FIND_IN_SET(:_id, facetValueIds) *)
| SqlAnd (a b : SqlCond)
| SqlOr (a b : SqlCond).

(** Computed select expressions. *)
Inductive SqlExpr :=
| SqlIf (c : SqlCond) (a b : Q)                      (* IF (c, a, b) *)
| SqlAlias (name : string)                           (* (SELECT name) *)
| SqlMatchRank (c : TextColumn) (against : string)   (* MATCH (c) AGAINST (:term) *)
| SqlTimes (e : SqlExpr) (k : Q)                     (* e * k *)
| SqlPlus (a b : SqlExpr).                           (* a + b *)

Inductive SqlOrderKey :=
| OrdAlias (name : string)      (* a computed column, e.g. 'score' *)
| OrdProductName                (* 'productName' *)
| OrdPrice.                     (* 'price' *)

Inductive GroupColumn := GrpProductId.

(** The part of TypeORM's [SelectQueryBuilder] expression map the strategy
    touches.  All columns of the entity are always selected; [qb_selects]
    holds the columns added with [addSelect]. *)
Record SelectQueryBuilder := {
  qb_selects : list (string * SqlExpr);
  qb_where : option SqlCond;
  qb_groupBy : option GroupColumn;
  qb_orderBys : list (SqlOrderKey * SortOrder);
  qb_take : option nat;
  qb_skip : option nat
}.

Definition createQueryBuilder : SelectQueryBuilder :=
  {| qb_selects := []; qb_where := None; qb_groupBy := None;
     qb_orderBys := []; qb_take := None; qb_skip := None |}.

Definition qb_set_where (w : option SqlCond) (qb : SelectQueryBuilder) :=
  {| qb_selects := qb_selects qb; qb_where := w; qb_groupBy := qb_groupBy qb;
     qb_orderBys := qb_orderBys qb; qb_take := qb_take qb; qb_skip := qb_skip qb |}.

(** [qb.where(c)] replaces the condition. *)
Definition where_ (c : SqlCond) (qb : SelectQueryBuilder) := qb_set_where (Some c) qb.

(** [qb.andWhere(c)] / [qb.orWhere(c)] chain onto the current condition.  In
    the queries built here the outer chain uses [andWhere] only and the
    bracket uses [orWhere] only, so nesting to the left agrees with SQL's
    operator precedence. *)
Definition andWhere (c : SqlCond) (qb : SelectQueryBuilder) :=
  qb_set_where (Some (match qb_where qb with Some w => SqlAnd w c | None => c end)) qb.

Definition orWhere (c : SqlCond) (qb : SelectQueryBuilder) :=
  qb_set_where (Some (match qb_where qb with Some w => SqlOr w c | None => c end)) qb.

(** [new Brackets(qb1 => ...)]: the condition built by the callback on a
    fresh builder. *)
Definition Brackets (f : SelectQueryBuilder -> SelectQueryBuilder) : SqlCond :=
  match qb_where (f createQueryBuilder) with Some w => w | None => SqlTrue end.

Definition addSelect (e : SqlExpr) (alias : string) (qb : SelectQueryBuilder) :=
  {| qb_selects := qb_selects qb ++ [(alias, e)]; qb_where := qb_where qb;
     qb_groupBy := qb_groupBy qb; qb_orderBys := qb_orderBys qb;
     qb_take := qb_take qb; qb_skip := qb_skip qb |}.

Definition groupBy (g : GroupColumn) (qb : SelectQueryBuilder) :=
  {| qb_selects := qb_selects qb; qb_where := qb_where qb; qb_groupBy := Some g;
     qb_orderBys := qb_orderBys qb; qb_take := qb_take qb; qb_skip := qb_skip qb |}.

Definition qb_set_orderBys (o : list (SqlOrderKey * SortOrder)) (qb : SelectQueryBuilder) :=
  {| qb_selects := qb_selects qb; qb_where := qb_where qb; qb_groupBy := qb_groupBy qb;
     qb_orderBys := o; qb_take := qb_take qb; qb_skip := qb_skip qb |}.

(** [qb.orderBy(k, d)] replaces the ordering, [qb.addOrderBy(k, d)] appends. *)
Definition orderBy (k : SqlOrderKey) (d : SortOrder) (qb : SelectQueryBuilder) :=
  qb_set_orderBys [(k, d)] qb.

Definition addOrderBy (k : SqlOrderKey) (d : SortOrder) (qb : SelectQueryBuilder) :=
  qb_set_orderBys (qb_orderBys qb ++ [(k, d)]) qb.

Definition qb_take_ (n : nat) (qb : SelectQueryBuilder) :=
  {| qb_selects := qb_selects qb; qb_where := qb_where qb; qb_groupBy := qb_groupBy qb;
     qb_orderBys := qb_orderBys qb; qb_take := Some n; qb_skip := qb_skip qb |}.

Definition qb_skip_ (n : nat) (qb : SelectQueryBuilder) :=
  {| qb_selects := qb_selects qb; qb_where := qb_where qb; qb_groupBy := qb_groupBy qb;
     qb_orderBys := qb_orderBys qb; qb_take := qb_take qb; qb_skip := Some n |}.

(** The same query without [take]/[skip]. *)
Definition unpaginated (qb : SelectQueryBuilder) :=
  {| qb_selects := qb_selects qb; qb_where := qb_where qb; qb_groupBy := qb_groupBy qb;
     qb_orderBys := qb_orderBys qb; qb_take := None; qb_skip := None |}.

(* ===================================================================== *)
(** * What the store computes                                             *)
(* ===================================================================== *)

(** The two predicates MySQL evaluates natively are parameters of the
    development: [sql_like value pattern] is [value LIKE pattern] and
    [match_against text term] is the relevance [MATCH (text) AGAINST (term)]. *)
Class FulltextEngine := {
  sql_like : string -> string -> bool;
  match_against : string -> string -> Q
}.

(** A raw result row: the entity columns and the computed columns. *)
Record RawRow := {
  raw_si : SearchIndexItem;
  raw_computed : list (string * option Q)
}.

Definition text_column (c : TextColumn) (it : SearchIndexItem) : string :=
  match c with
  | col_sku => sku it
  | col_productName => productName it
  | col_productVariantName => productVariantName it
  | col_description => description it
  end.

(** [FIND_IN_SET(needle, facetValueIds)]: the 1-based position of [needle]
    among the stored values, 0 when it is not one of them. *)
Fixpoint FIND_IN_SET (needle : string) (strlist : list string) : nat :=
  match strlist with
  | [] => 0
  | x :: rest =>
      if String.eqb needle x then 1
      else match FIND_IN_SET needle rest with 0 => 0 | S n => S (S n) end
  end.

Definition Q_truthy (q : Q) : bool := negb (Qeq_bool q 0).

(** The value of a computed column of a row; NULL ([None]) when the row has no
    such column. *)
Definition lookup_alias (name : string) (env : list (string * option Q)) : option Q :=
  match List.find (fun p => String.eqb (fst p) name) env with
  | Some (_, v) => v
  | None => None
  end.

Section Evaluation.
Context `{FulltextEngine}.

Fixpoint eval_cond (c : SqlCond) (it : SearchIndexItem) : bool :=
  match c with
  | SqlTrue => true
  | SqlLike col pattern => sql_like (text_column col it) pattern
  | SqlMatch col against => Q_truthy (match_against (text_column col it) against)
  | SqlFindInSet needle => negb (Nat.eqb (FIND_IN_SET needle (facetValueIds it)) 0)
  | SqlAnd a b => eval_cond a it && eval_cond b it
  | SqlOr a b => eval_cond a it || eval_cond b it
  end.

Fixpoint eval_expr (env : list (string * option Q)) (e : SqlExpr)
    (it : SearchIndexItem) : option Q :=
  match e with
  | SqlIf c a b => Some (if eval_cond c it then a else b)
  | SqlAlias name => lookup_alias name env
  | SqlMatchRank col against => Some (match_against (text_column col it) against)
  | SqlTimes e k =>
      match eval_expr env e it with Some v => Some (v * k)%Q | None => None end
  | SqlPlus a b =>
      match eval_expr env a it, eval_expr env b it with
      | Some x, Some y => Some (x + y)%Q
      | _, _ => None
      end
  end.

(** Computed columns are evaluated left to right; a later one may refer to
    an earlier alias. *)
Definition eval_selects (sels : list (string * SqlExpr)) (it : SearchIndexItem) : RawRow :=
  {| raw_si := it;
     raw_computed :=
       fold_left (fun env p => env ++ [(fst p, eval_expr env (snd p) it)]) sels [] |}.

Definition eval_where (w : option SqlCond) (it : SearchIndexItem) : bool :=
  match w with Some c => eval_cond c it | None => true end.
End Evaluation.

(** ** GROUP BY productId

    One row per product: the first row of each group in scan order stands for
    the group (the query selects non-aggregated columns). *)
Fixpoint group_rows (seen : list ID) (rows : list RawRow) : list RawRow :=
  match rows with
  | [] => []
  | r :: rest =>
      if existsb (String.eqb (productId (raw_si r))) seen
      then group_rows seen rest
      else r :: group_rows (productId (raw_si r) :: seen) rest
  end.

(** ** ORDER BY *)

Definition option_Q_compare (a b : option Q) : comparison :=
  match a, b with
  | None, None => Eq
  | None, Some _ => Lt
  | Some _, None => Gt
  | Some x, Some y => Qcompare x y
  end.

Definition key_compare (k : SqlOrderKey) (r1 r2 : RawRow) : comparison :=
  match k with
  | OrdAlias name =>
      option_Q_compare (lookup_alias name (raw_computed r1))
                       (lookup_alias name (raw_computed r2))
  | OrdProductName =>
      String.compare (productName (raw_si r1)) (productName (raw_si r2))
  | OrdPrice => Z.compare (price (raw_si r1)) (price (raw_si r2))
  end.

Definition directed (d : SortOrder) (c : comparison) : comparison :=
  match d with ASC => c | DESC => CompOpp c end.

(** Lexicographic comparison along the ORDER BY list. *)
Fixpoint order_compare (keys : list (SqlOrderKey * SortOrder)) (r1 r2 : RawRow) : comparison :=
  match keys with
  | [] => Eq
  | (k, d) :: rest =>
      match directed d (key_compare k r1 r2) with
      | Eq => order_compare rest r1 r2
      | c => c
      end
  end.

Definition order_leb (keys : list (SqlOrderKey * SortOrder)) (r1 r2 : RawRow) : bool :=
  match order_compare keys r1 r2 with Gt => false | _ => true end.

Fixpoint insert_row (keys : list (SqlOrderKey * SortOrder)) (r : RawRow)
    (sorted : list RawRow) : list RawRow :=
  match sorted with
  | [] => [r]
  | x :: rest =>
      if order_leb keys r x then r :: sorted else x :: insert_row keys r rest
  end.

(** Rows that compare equal keep their scan order. *)
Fixpoint sort_rows (keys : list (SqlOrderKey * SortOrder)) (rows : list RawRow) : list RawRow :=
  match rows with
  | [] => []
  | r :: rest => insert_row keys r (sort_rows keys rest)
  end.

(** ** LIMIT / OFFSET *)

Definition sql_offset (n : option nat) (rows : list RawRow) : list RawRow :=
  match n with Some k => skipn k rows | None => rows end.

Definition sql_limit (n : option nat) (rows : list RawRow) : list RawRow :=
  match n with Some k => firstn k rows | None => rows end.

(** ** Running a query over the rows of [search_index_item] *)

Definition filtered_rows `{FulltextEngine} (qb : SelectQueryBuilder)
    (table : list SearchIndexItem) : list RawRow :=
  List.map (eval_selects (qb_selects qb)) (List.filter (eval_where (qb_where qb)) table).

Definition grouped_rows `{FulltextEngine} (qb : SelectQueryBuilder)
    (table : list SearchIndexItem) : list RawRow :=
  match qb_groupBy qb with
  | Some GrpProductId => group_rows [] (filtered_rows qb table)
  | None => filtered_rows qb table
  end.

Definition getRawMany `{FulltextEngine} (qb : SelectQueryBuilder)
    (table : list SearchIndexItem) : list RawRow :=
  sql_limit (qb_take qb)
    (sql_offset (qb_skip qb) (sort_rows (qb_orderBys qb) (grouped_rows qb table))).

(** [SELECT COUNT( * ) as total FROM (inner) inner] *)
Definition count_rows `{FulltextEngine} (inner : SelectQueryBuilder)
    (table : list SearchIndexItem) : nat :=
  List.length (getRawMany inner table).

(* ===================================================================== *)
(** * MysqlSearchStrategy                                                 *)
(* ===================================================================== *)

(** [mapToSearchResult] (./map-to-search-result) is not part of the sources
    at hand; it is a parameter. *)
Class SearchResultMapper := {
  SearchResult : Type;
  mapToSearchResult : RawRow -> CurrencyCode -> SearchResult
}.

Module MysqlSearchStrategy.

Definition minTermLength : nat := 2.

(** [term && term.length > this.minTermLength] *)
Definition term_guard (term : option string) : bool :=
  match term with
  | Some t => negb (String.eqb t EmptyString) && (minTermLength <? String.length t)
  | None => false
  end.

(** [x || d] on an optional number. *)
Definition or_default (x : option nat) (d : nat) : nat :=
  match x with
  | Some 0 | None => d
  | Some n => n
  end.

Definition like_term (term : string) : string := ("%" ++ term ++ "%")%string.

Definition sku_score_expr (term : string) : SqlExpr :=
  SqlIf (SqlLike col_sku (like_term term)) 10 0.

Definition score_expr (term : string) : SqlExpr :=
  SqlPlus
    (SqlPlus
       (SqlPlus (SqlAlias "sku_score")
                (SqlTimes (SqlMatchRank col_productName term) 2))
       (SqlTimes (SqlMatchRank col_productVariantName term) 1.5))
    (SqlTimes (SqlMatchRank col_description term) 1).

Definition term_brackets (term : string) : SqlCond :=
  Brackets (fun qb1 =>
    orWhere (SqlMatch col_description term)
      (orWhere (SqlMatch col_productVariantName term)
         (orWhere (SqlMatch col_productName term)
            (where_ (SqlLike col_sku (like_term term)) qb1)))).

Definition applyTermAndFilters (qb : SelectQueryBuilder) (input : SearchInput)
    : SelectQueryBuilder :=
  let qb := where_ SqlTrue qb in
  let qb :=
    match i_term input with
    | Some term =>
        if term_guard (Some term)
        then andWhere (term_brackets term)
               (addSelect (score_expr term) "score"
                  (addSelect (sku_score_expr term) "sku_score" qb))
        else qb
    | None => qb
    end in
  let qb :=
    match i_facetIds input with
    | Some ids => fold_left (fun qb id => andWhere (SqlFindInSet id) qb) ids qb
    | None => qb
    end in
  match i_groupByProduct input with
  | Some true => groupBy GrpProductId qb
  | _ => qb
  end.

(** The query [getSearchResults] hands to [getRawMany]. *)
Definition searchResultsQuery (input : SearchInput) : SelectQueryBuilder :=
  let take := or_default (i_take input) 25 in
  let skip := or_default (i_skip input) 0 in
  let sort := i_sort input in
  let qb := applyTermAndFilters createQueryBuilder input in
  let qb := if term_guard (i_term input) then orderBy (OrdAlias "score") DESC qb else qb in
  let qb :=
    match sort with
    | Some s =>
        let qb := match sort_name s with
                  | Some d => addOrderBy OrdProductName d qb
                  | None => qb
                  end in
        match sort_price s with
        | Some d => addOrderBy OrdPrice d qb
        | None => qb
        end
    | None => qb
    end in
  qb_skip_ skip (qb_take_ take qb).

Definition getSearchResults `{FulltextEngine} `{SearchResultMapper}
    (ctx : RequestContext) (input : SearchInput) (table : list SearchIndexItem)
    : list SearchResult :=
  List.map (fun r => mapToSearchResult r (currencyCode (channel ctx)))
           (getRawMany (searchResultsQuery input) table).

Definition getTotalCount `{FulltextEngine}
    (ctx : RequestContext) (input : SearchInput) (table : list SearchIndexItem) : nat :=
  let innerQb := applyTermAndFilters createQueryBuilder input in
  count_rows innerQb table.

End MysqlSearchStrategy.

(** ** The filter and the score, as the specification words them *)

(** A record is a candidate for a term: its SKU contains the term, or one of
    name, variant name and description matches it in the fulltext index. *)
Definition term_matches `{FulltextEngine} (term : string) (it : SearchIndexItem) : bool :=
  sql_like (sku it) ("%" ++ term ++ "%")
  || Q_truthy (match_against (productName it) term)
  || Q_truthy (match_against (productVariantName it) term)
  || Q_truthy (match_against (description it) term).

Definition sku_bonus `{FulltextEngine} (term : string) (it : SearchIndexItem) : Q :=
  if sql_like (sku it) ("%" ++ term ++ "%") then 10%Q else 0%Q.

Definition weighted_score `{FulltextEngine} (term : string) (it : SearchIndexItem) : Q :=
  (sku_bonus term it
   + match_against (productName it) term * 2
   + match_against (productVariantName it) term * 1.5
   + match_against (description it) term * 1)%Q.

(** A record carries every listed facet-value id. *)
Definition carries_all (ids : list string) (it : SearchIndexItem) : bool :=
  forallb (fun id => negb (Nat.eqb (FIND_IN_SET id (facetValueIds it)) 0)) ids.

Definition term_filter `{FulltextEngine} (input : SearchInput) (it : SearchIndexItem) : bool :=
  match i_term input with
  | Some t => if MysqlSearchStrategy.term_guard (Some t) then term_matches t it else true
  | None => true
  end.

Definition facet_filter (input : SearchInput) (it : SearchIndexItem) : bool :=
  match i_facetIds input with
  | Some ids => carries_all ids it
  | None => true
  end.

(** The loop over [facetIds] in [applyTermAndFilters]. *)
Definition and_facets (ids : list string) (qb : SelectQueryBuilder) : SelectQueryBuilder :=
  fold_left (fun qb id => andWhere (SqlFindInSet id) qb) ids qb.

(** The computed columns [applyTermAndFilters] adds for an input. *)
Definition term_selects (input : SearchInput) : list (string * SqlExpr) :=
  match i_term input with
  | Some t =>
      if MysqlSearchStrategy.term_guard (Some t)
      then [("sku_score", MysqlSearchStrategy.sku_score_expr t);
            ("score", MysqlSearchStrategy.score_expr t)]
      else []
  | None => []
  end.

(** [a] may come before [b] under the ORDER BY list [keys]. *)
Definition ordered_by (keys : list (SqlOrderKey * SortOrder)) (a b : RawRow) : Prop :=
  order_leb keys a b = true.

(** The score column of a raw row. *)
Definition row_score (r : RawRow) : option Q := lookup_alias "score" (raw_computed r).

(** The ORDER BY keys requested by the [sort] argument. *)
Definition sort_keys (sort : option SearchResultSortParameter) : list (SqlOrderKey * SortOrder) :=
  match sort with
  | Some s =>
      match sort_name s with Some d => [(OrdProductName, d)] | None => [] end ++
      match sort_price s with Some d => [(OrdPrice, d)] | None => [] end
  | None => []
  end.

(* ===================================================================== *)
(** * Catalog entities and the tables behind the connection               *)
(* ===================================================================== *)

Record Asset := { preview : string }.

Record Facet := { facet_id : ID }.

Record FacetValue := { fv_id : ID; facet : Facet }.

Record Product := {
  p_id : ID;
  deletedAt : option Z;
  p_slug : string;
  p_name : string;
  p_description : string;
  p_featuredAsset : option Asset;
  p_facetValues : list FacetValue
}.

(** A variant as loaded with [variantRelations]: its product, the assets and
    the facet values (with their facets) are joined in. *)
Record ProductVariant := {
  v_id : ID;
  v_sku : string;
  v_price : Z;
  v_name : string;
  product : Product;
  v_featuredAsset : option Asset;
  v_facetValues : list FacetValue
}.

Inductive Error := InternalServerError (message : string).

Inductive Result (A : Type) :=
| Ok (a : A)
| Err (e : Error).
Arguments Ok {A} a.
Arguments Err {A} e.

(** The index table, keyed by its composite primary key
    (productVariantId, languageCode). *)
Abbreviation IndexStore := (gmap (string * string) SearchIndexItem) (only parsing).

(** Write operations issued on the [SearchIndexItem] repository. *)
Inductive StoreOp :=
| OpSave (items : list SearchIndexItem)            (* save(items) *)
| OpDeleteKeys (keys : list (ID * LanguageCode))   (* delete(compositeKeys) *)
| OpDeleteLanguage (lang : LanguageCode).          (* delete({ languageCode }) *)

(** The database behind [connection]: the catalog tables read by the service,
    the index table, and the writes issued on the index so far. *)
Record Db := {
  db_products : list Product;
  db_variants : list ProductVariant;
  search_index : IndexStore;
  writes : list StoreOp
}.

(** ** A task: a computation over the database that returns or throws *)

Definition Task (A : Type) : Type := Db -> Result A * Db.

Definition ret {A} (a : A) : Task A := fun db => (Ok a, db).

Definition throw {A} (e : Error) : Task A := fun db => (Err e, db).

Definition bind {A B} (t : Task A) (k : A -> Task B) : Task B :=
  fun db =>
    match t db with
    | (Ok a, db') => k a db'
    | (Err e, db') => (Err e, db')
    end.

Notation "'await' x <- t ;; k" := (bind t (fun x => k))
  (at level 62, x name, t at level 61, k at level 200).

Definition lift {A} (r : Result A) : Task A := fun db => (r, db).

Definition read {A} (f : Db -> A) : Task A := fun db => (Ok (f db), db).

Fixpoint map_result {A B} (f : A -> Result B) (l : list A) : Result (list B) :=
  match l with
  | [] => Ok []
  | x :: rest =>
      match f x with
      | Err e => Err e
      | Ok y =>
          match map_result f rest with
          | Err e => Err e
          | Ok ys => Ok (y :: ys)
          end
      end
  end.

(** ** Repository operations (TypeORM) *)

Definition item_key (it : SearchIndexItem) : string * string :=
  (productVariantId it, languageCode it).

Definition upsert_all (items : list SearchIndexItem) (m : IndexStore) : IndexStore :=
  fold_left (fun m it => <[item_key it := it]> m) items m.

Definition delete_all (keys : list (string * string)) (m : IndexStore) : IndexStore :=
  fold_left (fun m k => delete k m) keys m.

Definition rows_of_language (lang : LanguageCode) (m : IndexStore) : IndexStore :=
  filter (fun kv => snd (fst kv) = lang) m.

Definition rows_not_of_language (lang : LanguageCode) (m : IndexStore) : IndexStore :=
  filter (fun kv => snd (fst kv) <> lang) m.

Definition write_index (op : StoreOp) (f : IndexStore -> IndexStore) : Task unit :=
  fun db =>
    (Ok tt,
     {| db_products := db_products db; db_variants := db_variants db;
        search_index := f (search_index db); writes := writes db ++ [op] |}).

(** [getRepository(SearchIndexItem).save(items)]: insert, or replace on the
    primary key. *)
Definition SearchIndexItem_save (items : list SearchIndexItem) : Task unit :=
  write_index (OpSave items) (upsert_all items).

(** [getRepository(SearchIndexItem).delete(compositeKeys)] *)
Definition SearchIndexItem_delete (keys : list (string * string)) : Task unit :=
  write_index (OpDeleteKeys keys) (delete_all keys).

(** [getRepository(SearchIndexItem).delete({ languageCode })] *)
Definition SearchIndexItem_delete_language (lang : LanguageCode) : Task unit :=
  write_index (OpDeleteLanguage lang) (rows_not_of_language lang).

(** [getRepository(SearchIndexItem).count({ where: { languageCode } })] *)
Definition SearchIndexItem_count (lang : LanguageCode) : Task nat :=
  read (fun db => size (rows_of_language lang (search_index db))).

(** [getRepository(Product).findOne(id, { relations: ['variants'] })]: the
    product row, and (below) the variants that point to it. *)
Definition Product_findOne (id : ID) : Task (option Product) :=
  read (fun db => List.find (fun p => String.eqb (p_id p) id) (db_products db)).

Definition variants_of (p : Product) (db : Db) : list ProductVariant :=
  List.filter (fun v => String.eqb (p_id (product v)) (p_id p)) (db_variants db).

(** [getRepository(ProductVariant).findByIds(ids, { relations })] *)
Definition ProductVariant_findByIds (ids : list ID) : Task (list ProductVariant) :=
  read (fun db =>
    List.filter (fun v => existsb (String.eqb (v_id v)) ids) (db_variants db)).

(** [getRepository(ProductVariant).findOne(id, { relations })] *)
Definition ProductVariant_findOne (id : ID) : Task (option ProductVariant) :=
  read (fun db => List.find (fun v => String.eqb (v_id v) id) (db_variants db)).

(** The variants query of [reindex]: [variants_product.deletedAt IS NULL]. *)
Definition ProductVariant_notDeleted : Task (list ProductVariant) :=
  read (fun db =>
    List.filter (fun v => match deletedAt (product v) with None => true | Some _ => false end)
                (db_variants db)).


(* ===================================================================== *)
(** * FulltextSearchService                                               *)
(* ===================================================================== *)

(** Modelled from the spec: [unique] (shared/unique) is not among the sources
    at hand.  The specification makes [facetIds] and [facetValueIds] sets, so
    [unique] keeps one copy of every element, the first, in order. *)
Fixpoint unique (arr : list string) : list string :=
  match arr with
  | [] => []
  | x :: rest => x :: List.filter (fun y => negb (String.eqb y x)) (unique rest)
  end.

(** [translateDeep] (service/helpers/utils/translate-entity) is not part of the
    sources at hand; it is a parameter, and it may throw. *)
Class Translator := {
  translateDeep : ProductVariant -> LanguageCode -> Result ProductVariant
}.

Inductive SearchStrategy :=
| new_MysqlSearchStrategy
| new_SqliteSearchStrategy
| new_PostgresSearchStrategy.

(** The entity carried by a [CatalogModificationEvent]. *)
Inductive Entity :=
| a_Product (id : ID)
| a_ProductVariant (id : ID).

(** [DefaultSearceReindexResonse]; [timeTaken] is wall-clock time and is left
    out. *)
Record ReindexResponse := {
  success : bool;
  indexedItemCount : nat
}.

Module FulltextSearchService.

Record t := { searchStrategy : SearchStrategy }.

(** The [switch] of the constructor on [connection.options.type]. *)
Definition constructor (type : string) : Result t :=
  if String.eqb type "mysql" || String.eqb type "mariadb"
  then Ok {| searchStrategy := new_MysqlSearchStrategy |}
  else if String.eqb type "sqlite" || String.eqb type "sqljs"
  then Ok {| searchStrategy := new_SqliteSearchStrategy |}
  else if String.eqb type "postgres"
  then Ok {| searchStrategy := new_PostgresSearchStrategy |}
  else Err (InternalServerError "error.database-not-supported-by-default-search-plugin").

Definition getFacetIds (variant : ProductVariant) : list string :=
  let facetIds := fun fv : FacetValue => ID_toString (facet_id (facet fv)) in
  let variantFacetIds := List.map facetIds (v_facetValues variant) in
  let productFacetIds := List.map facetIds (p_facetValues (product variant)) in
  unique (variantFacetIds ++ productFacetIds).

Definition getFacetValueIds (variant : ProductVariant) : list string :=
  let facetValueIds := fun fv : FacetValue => ID_toString (fv_id fv) in
  let variantFacetValueIds := List.map facetValueIds (v_facetValues variant) in
  let productFacetValueIds := List.map facetValueIds (p_facetValues (product variant)) in
  unique (variantFacetValueIds ++ productFacetValueIds).

(** The record built for one translated variant. *)
Definition new_SearchIndexItem (languageCode : LanguageCode) (v : ProductVariant)
    : SearchIndexItem :=
  {| sku := v_sku v;
     slug := p_slug (product v);
     price := v_price v;
     languageCode := languageCode;
     productVariantId := v_id v;
     productId := p_id (product v);
     productName := p_name (product v);
     description := p_description (product v);
     productVariantName := v_name v;
     productPreview :=
       match p_featuredAsset (product v) with Some a => preview a | None => EmptyString end;
     productVariantPreview :=
       match v_featuredAsset v with Some a => preview a | None => EmptyString end;
     facetIds := getFacetIds v;
     facetValueIds := getFacetValueIds v |}.

Definition saveSearchIndexItems `{Translator} (languageCode : LanguageCode)
    (variants : list ProductVariant) : Task unit :=
  await translated <- lift (map_result (fun v => translateDeep v languageCode) variants) ;;
  let items := List.map (new_SearchIndexItem languageCode) translated in
  SearchIndexItem_save items.

Definition removeSearchIndexItems (languageCode : LanguageCode) (variantIds : list ID)
    : Task unit :=
  let compositeKeys := List.map (fun id => (id, languageCode)) variantIds in
  SearchIndexItem_delete compositeKeys.

Definition reindex `{Translator} (languageCode : LanguageCode) : Task ReindexResponse :=
  await variants <- ProductVariant_notDeleted ;;
  await _ <- SearchIndexItem_delete_language languageCode ;;
  await _ <- saveSearchIndexItems languageCode variants ;;
  ret {| success := true; indexedItemCount := List.length variants |}.

(** [update], first half: the variants to write ([updatedVariants]) and the
    variant ids to remove ([removedVariantIds]). *)
Definition update_collect (updatedEntity : Entity) : Task (list ProductVariant * list ID) :=
  match updatedEntity with
  | a_Product id =>
      await product <- Product_findOne id ;;
      match product with
      | Some product =>
          await variants <- read (variants_of product) ;;
          match deletedAt product with
          | Some _ => ret ([], List.map v_id variants)
          | None =>
              await updatedVariants <- ProductVariant_findByIds (List.map v_id variants) ;;
              ret (updatedVariants, [])
          end
      | None => ret ([], [])
      end
  | a_ProductVariant id =>
      await variant <- ProductVariant_findOne id ;;
      match variant with
      | Some variant => ret ([variant], [])
      | None => ret ([], [])
      end
  end.

(** [update], second half: the two guarded writes. *)
Definition update_apply `{Translator} (ctx : RequestContext)
    (updatedVariants : list ProductVariant) (removedVariantIds : list ID) : Task unit :=
  await _ <- (match updatedVariants with
              | [] => ret tt
              | _ :: _ => saveSearchIndexItems (ctx_languageCode ctx) updatedVariants
              end) ;;
  match removedVariantIds with
  | [] => ret tt
  | _ :: _ => removeSearchIndexItems (ctx_languageCode ctx) removedVariantIds
  end.

Definition update `{Translator} (ctx : RequestContext) (updatedEntity : Entity) : Task unit :=
  await plan <- update_collect updatedEntity ;;
  update_apply ctx (fst plan) (snd plan).

Definition checkIndex `{Translator} (languageCode : LanguageCode) : Task unit :=
  await indexSize <- SearchIndexItem_count languageCode ;;
  if Nat.eqb indexSize 0
  then await _ <- reindex languageCode ;; ret tt
  else ret tt.

End FulltextSearchService.

(** ** Vocabulary for the statements about the service *)

(** The task, run on [db], issued [save(items)] on the index. *)
Definition saved_by {A} (t : Task A) (db : Db) (items : list SearchIndexItem) : Prop :=
  exists before after, writes (snd (t db)) = writes db ++ before ++ OpSave items :: after.

(** [result] is the duplicate-free union of [l1] and [l2]. *)
Definition union_of (l1 l2 result : list string) : Prop :=
  List.NoDup result /\ forall x, In x result <-> In x l1 \/ In x l2.

(** Every run of [reindex], and nothing else, issues [delete({ languageCode })]:
    the number of these in the log is the number of reindex runs. *)
Definition reindex_runs (ops : list StoreOp) : nat :=
  List.length (List.filter (fun op => match op with OpDeleteLanguage _ => true | _ => false end) ops).

Definition key_in_dec (k : string * string) (l : list (string * string))
    : {In k l} + {~ In k l} :=
  in_dec (fun a b => decide (a = b)) k l.

Definition same_catalog (db db' : Db) : Prop :=
  db_products db' = db_products db /\ db_variants db' = db_variants db.

(* ===================================================================== *)
(** * Sample engine and data used in the examples                         *)
(* ===================================================================== *)

Fixpoint is_substring (t s : string) : bool :=
  String.prefix t s ||
  match s with
  | EmptyString => false
  | String _ s' => is_substring t s'
  end.

(** [LIKE] for patterns of the shape [%t%], with [t] free of wildcards. *)
Definition sample_like (value pattern : string) : bool :=
  match pattern with
  | String "%"%char rest =>
      is_substring (String.substring 0 (String.length rest - 1) rest) value
  | _ => String.eqb value pattern
  end.

(** A relevance of 1 for a text that holds the term, 0 otherwise. *)
Definition sample_rank (text term : string) : Q :=
  if is_substring term text then 1%Q else 0%Q.

Definition sample_engine : FulltextEngine :=
  {| sql_like := sample_like; match_against := sample_rank |}.

Definition sample_mapper : SearchResultMapper :=
  {| SearchResult := RawRow * CurrencyCode; mapToSearchResult := fun r c => (r, c) |}.

Definition sample_ctx : RequestContext :=
  {| ctx_languageCode := "en"; channel := {| currencyCode := "USD" |} |}.

Definition sample_item (vid pid sku_ name_ : string) (price_ : Z) (fvs : list string)
    : SearchIndexItem :=
  {| sku := sku_; slug := EmptyString; price := price_; languageCode := "en";
     productVariantId := vid; productId := pid; productName := name_;
     description := EmptyString; productVariantName := name_; productPreview := EmptyString;
     productVariantPreview := EmptyString; facetIds := []; facetValueIds := fvs |}.

Definition no_input : SearchInput :=
  {| i_term := None; i_facetIds := None; i_take := None; i_skip := None;
     i_sort := None; i_groupByProduct := None |}.

Definition input_with_term (t : string) : SearchInput :=
  {| i_term := Some t; i_facetIds := None; i_take := None; i_skip := None;
     i_sort := None; i_groupByProduct := None |}.

Definition input_with_facets (ids : list string) : SearchInput :=
  {| i_term := None; i_facetIds := Some ids; i_take := None; i_skip := None;
     i_sort := None; i_groupByProduct := None |}.

Definition item_A : SearchIndexItem := sample_item "1" "1" "SKU-A" "Alpha" 100 ["A"].
Definition item_B : SearchIndexItem := sample_item "2" "2" "SKU-B" "Beta" 200 ["B"].
Definition item_AB : SearchIndexItem := sample_item "3" "3" "SKU-AB" "Gamma" 300 ["A"; "B"].
Definition table_A_B_AB : list SearchIndexItem := [item_A; item_B; item_AB].

Definition input_take_zero : SearchInput :=
  {| i_term := None; i_facetIds := None; i_take := Some 0; i_skip := None;
     i_sort := None; i_groupByProduct := None |}.

Definition input_grouped : SearchInput :=
  {| i_term := None; i_facetIds := Some ["A"]; i_take := None; i_skip := None;
     i_sort := None; i_groupByProduct := Some true |}.

(** Two variants of product 1 and one variant of product 2, all tagged A. *)
Definition table_two_products : list SearchIndexItem :=
  [sample_item "1" "1" "SKU-1S" "Alpha S" 100 ["A"];
   sample_item "2" "1" "SKU-1L" "Alpha L" 110 ["A"];
   sample_item "3" "2" "SKU-2" "Beta" 200 ["A"]].

Definition input_ranked_by_price : SearchInput :=
  {| i_term := Some "SKU"; i_facetIds := None; i_take := None; i_skip := None;
     i_sort := Some {| sort_name := None; sort_price := Some DESC |};
     i_groupByProduct := None |}.

(** A translator that finds a translation for every variant and language and
    leaves the entity as loaded. *)
Definition sample_translator : Translator :=
  {| translateDeep := fun v _ => Ok v |}.

Definition fv_red : FacetValue := {| fv_id := "11"; facet := {| facet_id := "1" |} |}.
Definition fv_large : FacetValue := {| fv_id := "21"; facet := {| facet_id := "2" |} |}.
Definition fv_cotton : FacetValue := {| fv_id := "31"; facet := {| facet_id := "3" |} |}.

Definition shirt (deleted : option Z) : Product :=
  {| p_id := "P1"; deletedAt := deleted; p_slug := "shirt"; p_name := "Shirt";
     p_description := "A shirt"; p_featuredAsset := None;
     p_facetValues := [fv_cotton; fv_red] |}.

Definition shirt_variant (vid sku_ : string) (deleted : option Z) : ProductVariant :=
  {| v_id := vid; v_sku := sku_; v_price := 1000; v_name := "Shirt " ++ sku_;
     product := shirt deleted; v_featuredAsset := None;
     v_facetValues := [fv_red; fv_large] |}.

(** A catalog with one product and its two variants, over a given index. *)
Definition shirt_db (deleted : option Z) (idx : IndexStore) : Db :=
  {| db_products := [shirt deleted];
     db_variants := [shirt_variant "V1" "RED-M" deleted; shirt_variant "V2" "RED-L" deleted];
     search_index := idx;
     writes := [] |}.

(** A database with no product at all. *)
Definition empty_db : Db :=
  {| db_products := []; db_variants := []; search_index := ∅; writes := [] |}.

Definition ctx_of (lang : LanguageCode) : RequestContext :=
  {| ctx_languageCode := lang; channel := {| currencyCode := "USD" |} |}.

(** An index holding the shirt's variants in English and in German, and one
    variant of another product. *)
Definition indexed (vid lang pid name_ : string) : SearchIndexItem :=
  {| sku := vid; slug := EmptyString; price := 1000; languageCode := lang;
     productVariantId := vid; productId := pid; productName := name_;
     description := EmptyString; productVariantName := name_; productPreview := EmptyString;
     productVariantPreview := EmptyString; facetIds := []; facetValueIds := [] |}.

Definition shirt_index_en_de : IndexStore :=
  upsert_all [indexed "V1" "en" "P1" "Shirt"; indexed "V1" "de" "P1" "Hemd";
              indexed "V2" "en" "P1" "Shirt"; indexed "V9" "en" "P9" "Hat"] ∅.

(* ===================================================================== *)
(** * Further operations of the strategy, the service and ProductService  *)
(* ===================================================================== *)

(** ** MysqlSearchStrategy.getFacetValueIds *)

(** A [simple-array] column stores its values joined by commas. *)
Definition simple_array (values : list string) : string := String.concat "," values.

(** [s.split(',')]: the pieces between the commas; one (empty) piece for the
    empty string. *)
Fixpoint split_comma (s : string) : list string :=
  match s with
  | EmptyString => [EmptyString]
  | String c rest =>
      if Ascii.eqb c ","%char
      then EmptyString :: split_comma rest
      else match split_comma rest with
           | [] => [String c EmptyString]
           | piece :: pieces => String c piece :: pieces
           end
  end.

(** [GROUP_CONCAT(si.facetValueIds)] over the rows of a group: the column
    texts joined by commas, NULL ([None]) for a group without rows.  The
    result is taken to fit [group_concat_max_len]. *)
Definition GROUP_CONCAT (rows : list SearchIndexItem) : option string :=
  match rows with
  | [] => None
  | _ :: _ =>
      Some (String.concat "," (List.map (fun it => simple_array (facetValueIds it)) rows))
  end.

(** [getRawOne()] of the aggregate query [SELECT GROUP_CONCAT(si.facetValueIds)
    AS allFacetValues]: without GROUP BY there is exactly one result row,
    which aggregates every matching record; with GROUP BY productId there is
    one row per product and [getRawOne] yields the first (none when nothing
    matches).  The computed columns added by [applyTermAndFilters] are not
    read. *)
Definition facetValues_getRawOne `{FulltextEngine} (qb : SelectQueryBuilder)
    (table : list SearchIndexItem) : option (option string) :=
  let matched := List.filter (eval_where (qb_where qb)) table in
  match qb_groupBy qb with
  | None => Some (GROUP_CONCAT matched)
  | Some GrpProductId =>
      match matched with
      | [] => None
      | first :: _ =>
          Some (GROUP_CONCAT
                  (List.filter (fun it => String.eqb (productId it) (productId first))
                               matched))
      end
  end.

Definition Mysql_getFacetValueIds `{FulltextEngine}
    (ctx : RequestContext) (input : SearchInput) (table : list SearchIndexItem) : list ID :=
  let facetValuesQb := createQueryBuilder in
  let facetValuesResult :=
    facetValues_getRawOne (MysqlSearchStrategy.applyTermAndFilters facetValuesQb input) table in
  let allFacetValues :=
    match facetValuesResult with
    | Some (Some all) => all
    | Some None | None => EmptyString
    end in
  unique (List.filter (fun x => negb (String.eqb x EmptyString)) (split_comma allFacetValues)).

(** ** FulltextSearchService.search *)





(** ** ProductService.getProductIdsInCategory *)

Module ProductService.

(** The rows of [product INNER JOIN product.facetValues facetValue ON
    facetValue.id IN (:...facetValueIds)] that belong to one product row:
    the ids of its facet values that are listed. *)
Definition joined_facetValues (facetValueIds : list ID) (p : Product) : list ID :=
  List.filter (fun id => existsb (String.eqb id) facetValueIds)
              (List.map fv_id (p_facetValues p)).

(** The joined rows of the group [product.id = pid]. *)
Definition group_of (facetValueIds : list ID) (products : list Product) (pid : ID) : list ID :=
  flat_map (joined_facetValues facetValueIds)
           (List.filter (fun p => String.eqb (p_id p) pid) products).

(** [GROUP BY product.id HAVING count(distinct facetValue.id) = :idCount],
    one result row per group that has joined rows.  For an empty id list the
    store rejects the query ([IN ()]); the model is meant for a non-empty
    list. *)
Definition productIds_query (facetValueIds : list ID) (products : list Product) : list ID :=
  List.filter
    (fun pid =>
       let rows := group_of facetValueIds products pid in
       negb (Nat.eqb (List.length rows) 0)
       && Nat.eqb (List.length (nodup string_dec rows)) (List.length facetValueIds))
    (nodup string_dec (List.map p_id products)).

(** [getFacetValueIdsForCategory] belongs to ProductCategoryService, which is
    not part of the sources at hand; it is a parameter. *)
Definition getProductIdsInCategory
    (getFacetValueIdsForCategory : ID -> Task (list ID)) (categoryId : ID) : Task (list ID) :=
  await facetValueIds <- getFacetValueIdsForCategory categoryId ;;
  await productIds <- read (fun db => productIds_query facetValueIds (db_products db)) ;;
  ret productIds.

End ProductService.

(** ** Vocabulary for the further statements *)

(** The same search without a term. *)
Definition without_term (input : SearchInput) : SearchInput :=
  {| i_term := None; i_facetIds := i_facetIds input;
     i_take := i_take input; i_skip := i_skip input;
     i_sort := i_sort input; i_groupByProduct := i_groupByProduct input |}.

(** The same search with another facet-id filter. *)
Definition with_facetIds (input : SearchInput) (ids : option (list string)) : SearchInput :=
  {| i_term := i_term input; i_facetIds := ids;
     i_take := i_take input; i_skip := i_skip input;
     i_sort := i_sort input; i_groupByProduct := i_groupByProduct input |}.

Fixpoint comma_free (s : string) : bool :=
  match s with
  | EmptyString => true
  | String c rest => negb (Ascii.eqb c ","%char) && comma_free rest
  end.

Definition non_empty (x : string) : bool := negb (String.eqb x EmptyString).

(** The records of the table that pass the term filter and the facet filter. *)
Definition matching `{FulltextEngine} (input : SearchInput) (table : list SearchIndexItem)
    : list SearchIndexItem :=
  List.filter (fun it => term_filter input it && facet_filter input it) table.

Definition live (v : ProductVariant) : bool :=
  match deletedAt (product v) with None => true | Some _ => false end.

(** The text [getFacetValueIds] splits: the aggregate, or the empty string
    for NULL. *)
Definition aggregated (rows : list SearchIndexItem) : string :=
  match GROUP_CONCAT rows with Some all => all | None => EmptyString end.

(** ** Sample data for the further statements *)

(** A translator that knows English only. *)
Definition english_only_translator : Translator :=
  {| translateDeep := fun v lang =>
       if String.eqb lang "en" then Ok v
       else Err (InternalServerError "error.entity-has-no-translation-in-language") |}.

Definition input_ranked_grouped : SearchInput :=
  {| i_term := Some "SKU"; i_facetIds := Some ["A"]; i_take := None; i_skip := None;
     i_sort := None; i_groupByProduct := None |}.

Definition input_sorted_by_price : SearchInput :=
  {| i_term := None; i_facetIds := None; i_take := None; i_skip := None;
     i_sort := Some {| sort_name := None; sort_price := Some ASC |};
     i_groupByProduct := None |}.

(** Records that match the term "shirt" in different places. *)
Definition ranked_item (vid sku_ name_ vname_ description_ : string) (price_ : Z)
    : SearchIndexItem :=
  {| sku := sku_; slug := EmptyString; price := price_; languageCode := "en";
     productVariantId := vid; productId := vid; productName := name_;
     description := description_; productVariantName := vname_;
     productPreview := EmptyString; productVariantPreview := EmptyString;
     facetIds := []; facetValueIds := [] |}.

(** In table order: description only (score 1), variant name only (1.5),
    name only (2), SKU only (10), everything (14.5), nothing, and a second
    name-only match with a higher price. *)
Definition table_shirts : list SearchIndexItem :=
  [ranked_item "1" "X-1" "Hat" "Hat blue" "goes with a shirt" 100;
   ranked_item "2" "X-2" "Hat" "hat for a shirt" EmptyString 100;
   ranked_item "3" "X-3" "Red shirt" "Red M" EmptyString 100;
   ranked_item "4" "shirt-4" "Cap" "Cap" EmptyString 100;
   ranked_item "5" "shirt-5" "Blue shirt" "Blue shirt L" "a shirt" 100;
   ranked_item "6" "X-6" "Sock" "Sock" EmptyString 100;
   ranked_item "7" "X-7" "Green shirt" "Green M" EmptyString 250].

Definition input_shirt_by_price : SearchInput :=
  {| i_term := Some "shirt"; i_facetIds := None; i_take := None; i_skip := None;
     i_sort := Some {| sort_name := None; sort_price := Some DESC |};
     i_groupByProduct := None |}.

(** A product whose two variants carry different facet values, one of them
    shared with the product. *)
Definition fv_blue : FacetValue := {| fv_id := "12"; facet := {| facet_id := "1" |} |}.
Definition fv_small : FacetValue := {| fv_id := "22"; facet := {| facet_id := "2" |} |}.

Definition jacket : Product :=
  {| p_id := "J"; deletedAt := None; p_slug := "jacket"; p_name := "Jacket";
     p_description := "A jacket"; p_featuredAsset := None;
     p_facetValues := [fv_cotton; fv_blue] |}.

Definition jacket_red_large : ProductVariant :=
  {| v_id := "J1"; v_sku := "JKT-RED-L"; v_price := 9000; v_name := "Jacket red L";
     product := jacket; v_featuredAsset := None; v_facetValues := [fv_red; fv_large] |}.

Definition jacket_blue_small : ProductVariant :=
  {| v_id := "J2"; v_sku := "JKT-BLU-S"; v_price := 9000; v_name := "Jacket blue S";
     product := jacket; v_featuredAsset := None; v_facetValues := [fv_blue; fv_small] |}.

Definition jacket_db : Db :=
  {| db_products := [jacket];
     db_variants := [jacket_red_large; jacket_blue_small];
     search_index := ∅;
     writes := [] |}.

(** The category service of the examples: every category lists the given ids. *)
Definition category_with (ids : list ID) : ID -> Task (list ID) := fun _ => ret ids.

(* ===================================================================== *)
(** * Properties of the query engine                                      *)
(* ===================================================================== *)

Lemma FIND_IN_SET_In (needle : string) (l : list string) :
  FIND_IN_SET needle l <> 0 <-> In needle l.
Proof.
  induction l as [| x rest IH]; simpl.
  - split; [congruence | tauto].
  - destruct (String.eqb_spec needle x) as [-> | Hne].
    + split; [auto | discriminate].
    + destruct (FIND_IN_SET needle rest); split.
      * intros Hc; congruence.
      * intros [Hx | Hin]; [congruence | now apply IH in Hin].
      * intros _. right. apply IH. discriminate.
      * discriminate.
Qed.

Lemma FIND_IN_SET_true (needle : string) (l : list string) :
  negb (Nat.eqb (FIND_IN_SET needle l) 0) = true <-> In needle l.
Proof.
  rewrite <- FIND_IN_SET_In, negb_true_iff, Nat.eqb_neq. tauto.
Qed.

(** ** ORDER BY yields a sorted permutation *)

Lemma option_Q_compare_antisym (a b : option Q) :
  option_Q_compare b a = CompOpp (option_Q_compare a b).
Proof.
  destruct a, b; simpl; try reflexivity. symmetry. apply Qcompare_antisym.
Qed.

Lemma key_compare_antisym (k : SqlOrderKey) (a b : RawRow) :
  key_compare k b a = CompOpp (key_compare k a b).
Proof.
  destruct k; simpl.
  - apply option_Q_compare_antisym.
  - apply String.compare_antisym.
  - apply Z.compare_antisym.
Qed.

Lemma directed_opp (d : SortOrder) (c : comparison) :
  directed d (CompOpp c) = CompOpp (directed d c).
Proof. destruct d; reflexivity. Qed.

Lemma order_compare_antisym (keys : list (SqlOrderKey * SortOrder)) (a b : RawRow) :
  order_compare keys b a = CompOpp (order_compare keys a b).
Proof.
  induction keys as [| [k d] rest IH]; simpl; [reflexivity |].
  rewrite key_compare_antisym, directed_opp.
  destruct (directed d (key_compare k a b)); simpl; auto.
Qed.

Lemma order_leb_total (keys : list (SqlOrderKey * SortOrder)) (a b : RawRow) :
  order_leb keys a b = false -> order_leb keys b a = true.
Proof.
  unfold order_leb. rewrite (order_compare_antisym keys a b).
  destruct (order_compare keys a b); simpl; congruence.
Qed.

Lemma insert_row_HdRel keys r x l :
  ordered_by keys x r -> HdRel (ordered_by keys) x l ->
  HdRel (ordered_by keys) x (insert_row keys r l).
Proof.
  intros Hxr Hhd. destruct l as [| y l']; simpl.
  - now constructor.
  - destruct (order_leb keys r y); constructor; auto. now inversion Hhd.
Qed.

Lemma insert_row_sorted keys r l :
  Sorted (ordered_by keys) l -> Sorted (ordered_by keys) (insert_row keys r l).
Proof.
  induction 1 as [| x l Hs IH Hhd]; simpl.
  - repeat constructor.
  - destruct (order_leb keys r x) eqn:Hrx.
    + constructor; [now constructor | now constructor].
    + constructor; [exact IH |].
      apply insert_row_HdRel; [| exact Hhd]. now apply order_leb_total.
Qed.

Lemma sort_rows_sorted keys rows : Sorted (ordered_by keys) (sort_rows keys rows).
Proof.
  induction rows as [| r rest IH]; simpl; [constructor | now apply insert_row_sorted].
Qed.

Lemma insert_row_perm keys r l : Permutation (r :: l) (insert_row keys r l).
Proof.
  induction l as [| x l IH]; simpl; [reflexivity |].
  destruct (order_leb keys r x); [reflexivity |].
  rewrite perm_swap. now constructor.
Qed.

Lemma sort_rows_perm keys rows : Permutation rows (sort_rows keys rows).
Proof.
  induction rows as [| r rest IH]; simpl; [constructor |].
  rewrite <- insert_row_perm. now constructor.
Qed.

Lemma sort_rows_length keys rows : List.length (sort_rows keys rows) = List.length rows.
Proof. symmetry. apply Permutation_length, sort_rows_perm. Qed.

Lemma sort_rows_In keys rows r : In r (sort_rows keys rows) <-> In r rows.
Proof.
  split; apply Permutation_in; [symmetry |]; apply sort_rows_perm.
Qed.

Lemma Sorted_weaken {A} (R R' : A -> A -> Prop) (l : list A) :
  (forall a b, R a b -> R' a b) -> Sorted R l -> Sorted R' l.
Proof.
  intros Himp. induction 1 as [| x l Hs IH Hhd]; constructor; auto.
  destruct Hhd; constructor; auto.
Qed.

Lemma Sorted_skipn {A} (R : A -> A -> Prop) (n : nat) (l : list A) :
  Sorted R l -> Sorted R (skipn n l).
Proof.
  revert l. induction n as [| n IH]; intros l Hs; simpl; [exact Hs |].
  destruct l as [| x l']; [constructor |]. apply IH. now inversion Hs.
Qed.

Lemma Sorted_firstn {A} (R : A -> A -> Prop) (n : nat) (l : list A) :
  Sorted R l -> Sorted R (firstn n l).
Proof.
  revert l. induction n as [| n IH]; intros l Hs; simpl; [constructor |].
  destruct l as [| x l']; [constructor |].
  inversion Hs as [| ? ? Hs' Hhd]; subst. constructor; [now apply IH |].
  destruct l' as [| y l'']; destruct n; simpl; constructor. now inversion Hhd.
Qed.

Lemma In_of_firstn {A} (n : nat) (l : list A) (x : A) : In x (firstn n l) -> In x l.
Proof.
  revert l. induction n as [| n IH]; intros [| y l]; simpl; try tauto.
  intros [-> | Hin]; [now left | right; now apply IH].
Qed.

Lemma In_of_skipn {A} (n : nat) (l : list A) (x : A) : In x (skipn n l) -> In x l.
Proof.
  revert l. induction n as [| n IH]; intros [| y l]; simpl; try tauto.
  intros Hin. right. now apply IH.
Qed.

Lemma sql_limit_In n rows r : In r (sql_limit n rows) -> In r rows.
Proof. destruct n; simpl; [apply In_of_firstn | auto]. Qed.

Lemma sql_offset_In n rows r : In r (sql_offset n rows) -> In r rows.
Proof. destruct n; simpl; [apply In_of_skipn | auto]. Qed.

(** ** GROUP BY keeps one row per product *)

Lemma group_rows_In seen rows r : In r (group_rows seen rows) -> In r rows.
Proof.
  revert seen. induction rows as [| x rest IH]; intros seen; simpl; [tauto |].
  destruct (existsb _ seen).
  - intros Hin. right. eapply IH, Hin.
  - intros [-> | Hin]; [now left | right; eapply IH, Hin].
Qed.

Lemma existsb_eqb_In (x : string) (l : list string) :
  existsb (String.eqb x) l = true <-> In x l.
Proof.
  rewrite existsb_exists. split.
  - intros [y [Hy Heq]]. apply String.eqb_eq in Heq. now subst.
  - intros Hin. exists x. split; [exact Hin | apply String.eqb_refl].
Qed.

Lemma group_rows_products seen rows pid :
  In pid (List.map (fun r => productId (raw_si r)) (group_rows seen rows)) <->
  In pid (List.map (fun r => productId (raw_si r)) rows) /\ ~ In pid seen.
Proof.
  revert seen. induction rows as [| x rest IH]; intros seen; simpl; [tauto |].
  destruct (existsb (String.eqb (productId (raw_si x))) seen) eqn:Hseen.
  - apply existsb_eqb_In in Hseen. rewrite IH. split.
    + intros [Hin Hns]. tauto.
    + intros [[Heq | Hin] Hns]; [subst; tauto | tauto].
  - assert (Hns : ~ In (productId (raw_si x)) seen).
    { rewrite <- existsb_eqb_In. congruence. }
    simpl. rewrite IH. simpl. split.
    + intros [Heq | [Hin Hn]]; [subst; tauto | tauto].
    + intros [[Heq | Hin] Hn]; [tauto |].
      destruct (String.eqb_spec (productId (raw_si x)) pid); [tauto | right; tauto].
Qed.

Lemma group_rows_NoDup seen rows :
  List.NoDup (List.map (fun r => productId (raw_si r)) (group_rows seen rows)).
Proof.
  revert seen. induction rows as [| x rest IH]; intros seen; simpl; [constructor |].
  destruct (existsb _ seen); [apply IH |].
  simpl. constructor; [| apply IH].
  rewrite group_rows_products. simpl. tauto.
Qed.

(* ===================================================================== *)
(** * Properties of MysqlSearchStrategy                                   *)
(* ===================================================================== *)

Section StrategyFacts.
Context `{FulltextEngine}.
Import MysqlSearchStrategy.

Lemma term_guard_length (t : string) :
  term_guard (Some t) = true <-> 3 <= String.length t.
Proof.
  unfold term_guard, minTermLength. rewrite andb_true_iff, negb_true_iff, Nat.ltb_lt.
  destruct t; simpl; split; try lia; intros; split; try lia; reflexivity.
Qed.

Lemma eval_andWhere c qb it :
  eval_where (qb_where (andWhere c qb)) it = eval_where (qb_where qb) it && eval_cond c it.
Proof. unfold andWhere. simpl. destruct (qb_where qb); reflexivity. Qed.

Lemma and_facets_eval ids qb it :
  eval_where (qb_where (and_facets ids qb)) it
  = eval_where (qb_where qb) it && carries_all ids it.
Proof.
  revert qb. induction ids as [| id rest IH]; intros qb; simpl.
  - now rewrite andb_true_r.
  - unfold and_facets in *. simpl. rewrite IH, eval_andWhere. simpl.
    now rewrite andb_assoc.
Qed.

Lemma and_facets_fields ids qb :
  qb_selects (and_facets ids qb) = qb_selects qb /\
  qb_groupBy (and_facets ids qb) = qb_groupBy qb /\
  qb_orderBys (and_facets ids qb) = qb_orderBys qb /\
  qb_take (and_facets ids qb) = qb_take qb /\
  qb_skip (and_facets ids qb) = qb_skip qb.
Proof.
  revert qb. induction ids as [| id rest IH]; intros qb; simpl; [tauto |].
  unfold and_facets in *. simpl. destruct (IH (andWhere (SqlFindInSet id) qb)) as (-> & -> & -> & -> & ->).
  simpl. tauto.
Qed.

Lemma term_brackets_eval term it :
  eval_cond (term_brackets term) it = term_matches term it.
Proof. reflexivity. Qed.

(** The WHERE clause built by [applyTermAndFilters] is the conjunction of
    the term filter and the facet filter. *)
Lemma applyTermAndFilters_where qb input it :
  eval_where (qb_where (applyTermAndFilters qb input)) it
  = term_filter input it && facet_filter input it.
Proof.
  unfold applyTermAndFilters, term_filter, facet_filter.
  set (q1 := match i_term input with Some _ => _ | None => _ end).
  assert (Hq1 : eval_where (qb_where q1) it
                = match i_term input with
                  | Some t => if term_guard (Some t) then term_matches t it else true
                  | None => true
                  end).
  { subst q1. destruct (i_term input) as [t |]; [| reflexivity].
    destruct (term_guard (Some t)); reflexivity. }
  set (q2 := match i_facetIds input with Some _ => _ | None => _ end).
  assert (Hq2 : eval_where (qb_where q2) it
                = eval_where (qb_where q1) it
                  && match i_facetIds input with
                     | Some ids => carries_all ids it
                     | None => true
                     end).
  { subst q2. destruct (i_facetIds input) as [ids |].
    - apply (and_facets_eval ids q1 it).
    - now rewrite andb_true_r. }
  rewrite <- Hq1, <- Hq2.
  destruct (i_groupByProduct input) as [[|] |]; reflexivity.
Qed.

Lemma applyTermAndFilters_fields input :
  let qb := applyTermAndFilters createQueryBuilder input in
  qb_selects qb = term_selects input /\
  qb_groupBy qb = (match i_groupByProduct input with
                   | Some true => Some GrpProductId
                   | _ => None
                   end) /\
  qb_orderBys qb = [] /\ qb_take qb = None /\ qb_skip qb = None.
Proof.
  unfold applyTermAndFilters, term_selects.
  set (q1 := match i_term input with Some _ => _ | None => _ end).
  assert (Hq1 : qb_selects q1
                = match i_term input with
                  | Some t => if term_guard (Some t)
                              then [("sku_score", sku_score_expr t); ("score", score_expr t)]
                              else []
                  | None => []
                  end /\
                qb_groupBy q1 = None /\ qb_orderBys q1 = [] /\
                qb_take q1 = None /\ qb_skip q1 = None).
  { subst q1. destruct (i_term input) as [t |]; [| simpl; tauto].
    destruct (term_guard (Some t)); simpl; tauto. }
  set (q2 := match i_facetIds input with Some _ => _ | None => _ end).
  assert (Hq2 : qb_selects q2 = qb_selects q1 /\ qb_groupBy q2 = qb_groupBy q1 /\
                qb_orderBys q2 = qb_orderBys q1 /\ qb_take q2 = qb_take q1 /\
                qb_skip q2 = qb_skip q1).
  { subst q2. destruct (i_facetIds input) as [ids |]; [| tauto].
    apply (and_facets_fields ids q1). }
  destruct Hq1 as (S1 & G1 & O1 & T1 & K1). destruct Hq2 as (S2 & G2 & O2 & T2 & K2).
  destruct (i_groupByProduct input) as [[|] |]; simpl;
    rewrite ?S2, ?G2, ?O2, ?T2, ?K2, ?S1, ?G1, ?O1, ?T1, ?K1; tauto.
Qed.

(** The query of [getSearchResults]: the filter, the computed columns and
    the grouping are those of [applyTermAndFilters]; the ordering is the
    score (when the term guard holds) followed by the requested keys. *)
Lemma searchResultsQuery_fields input :
  let inner := applyTermAndFilters createQueryBuilder input in
  let qb := searchResultsQuery input in
  qb_selects qb = qb_selects inner /\
  qb_where qb = qb_where inner /\
  qb_groupBy qb = qb_groupBy inner /\
  qb_orderBys qb
    = (if term_guard (i_term input) then [(OrdAlias "score", DESC)] else [])
      ++ sort_keys (i_sort input) /\
  qb_take qb = Some (or_default (i_take input) 25) /\
  qb_skip qb = Some (or_default (i_skip input) 0).
Proof.
  intros inner qb. subst qb. unfold searchResultsQuery. fold inner.
  destruct (applyTermAndFilters_fields input) as (_ & _ & HO & _ & _). fold inner in HO.
  unfold sort_keys.
  destruct (term_guard (i_term input)); destruct (i_sort input) as [[[dn |] [dp |]] |];
    simpl; rewrite ?HO; simpl; tauto.
Qed.

Lemma filtered_rows_In qb table r :
  In r (filtered_rows qb table) <->
  exists it, In it table /\ eval_where (qb_where qb) it = true
             /\ r = eval_selects (qb_selects qb) it.
Proof.
  unfold filtered_rows. rewrite in_map_iff. split.
  - intros (it & <- & Hin). apply filter_In in Hin. exists it. tauto.
  - intros (it & Hin & Hw & ->). exists it. split; [reflexivity |].
    apply filter_In. tauto.
Qed.

Lemma grouped_rows_In qb table r :
  In r (grouped_rows qb table) -> In r (filtered_rows qb table).
Proof.
  unfold grouped_rows. destruct (qb_groupBy qb) as [[] |]; [apply group_rows_In | auto].
Qed.

(** Every raw row returned comes from a record of the table that passes the
    WHERE clause. *)
Lemma getRawMany_In qb table r :
  In r (getRawMany qb table) ->
  exists it, In it table /\ eval_where (qb_where qb) it = true
             /\ r = eval_selects (qb_selects qb) it.
Proof.
  unfold getRawMany. intros Hin.
  apply sql_limit_In, sql_offset_In, sort_rows_In, grouped_rows_In in Hin.
  now apply filtered_rows_In.
Qed.

Lemma getRawMany_sorted qb table :
  Sorted (ordered_by (qb_orderBys qb)) (getRawMany qb table).
Proof.
  unfold getRawMany.
  destruct (qb_take qb), (qb_skip qb); simpl;
    repeat first [apply Sorted_firstn | apply Sorted_skipn]; apply sort_rows_sorted.
Qed.

(** Pagination is LIMIT/OFFSET over the unpaginated result. *)
Lemma getRawMany_paginated qb table :
  getRawMany qb table
  = sql_limit (qb_take qb) (sql_offset (qb_skip qb) (getRawMany (unpaginated qb) table)).
Proof. reflexivity. Qed.

Lemma getRawMany_unpaginated_length qb table :
  List.length (getRawMany (unpaginated qb) table) = List.length (grouped_rows qb table).
Proof. unfold getRawMany. simpl. apply sort_rows_length. Qed.
End StrategyFacts.

Section StrategyClaims.
Context `{FulltextEngine} `{SearchResultMapper}.
Import MysqlSearchStrategy.

Lemma empty_when_no_member {A} (l : list A) : (forall x, ~ In x l) -> l = [].
Proof. destruct l as [| x l]; [reflexivity |]. intros Hn. destruct (Hn x). now left. Qed.

Lemma Sorted_weaken_In {A} (R R' : A -> A -> Prop) (l : list A) :
  (forall a b, In a l -> In b l -> R a b -> R' a b) -> Sorted R l -> Sorted R' l.
Proof.
  intros Himp Hs. induction Hs as [| x l Hs IH Hhd]; constructor.
  - apply IH. intros a b Ha Hb. apply Himp; now right.
  - destruct Hhd as [| y l' Hxy]; constructor.
    apply Himp; [now left | right; now left | exact Hxy].
Qed.

Lemma searchResults_row_passes input table r :
  In r (getRawMany (searchResultsQuery input) table) ->
  In (raw_si r) table /\ term_filter input (raw_si r) = true
  /\ facet_filter input (raw_si r) = true
  /\ raw_computed r = raw_computed (eval_selects (term_selects input) (raw_si r)).
Proof.
  intros Hin. apply getRawMany_In in Hin. destruct Hin as (it & Hit & Hw & ->).
  destruct (searchResultsQuery_fields input) as (HS & HW & _).
  destruct (applyTermAndFilters_fields input) as (HS' & _).
  rewrite HW, applyTermAndFilters_where in Hw. apply andb_true_iff in Hw.
  rewrite HS, HS'. simpl. tauto.
Qed.

Lemma carries_all_In ids it :
  carries_all ids it = true <-> (forall id, In id ids -> In id (facetValueIds it)).
Proof.
  unfold carries_all. rewrite forallb_forall. split; intros Hall id Hid.
  - now apply FIND_IN_SET_true, Hall.
  - now apply FIND_IN_SET_true, Hall.
Qed.

Lemma grouped_rows_congr qb qb' table :
  qb_selects qb = qb_selects qb' -> qb_where qb = qb_where qb' ->
  qb_groupBy qb = qb_groupBy qb' ->
  grouped_rows qb table = grouped_rows qb' table.
Proof. unfold grouped_rows, filtered_rows. now intros -> -> ->. Qed.

Lemma getTotalCount_grouped ctx input table :
  getTotalCount ctx input table
  = List.length (grouped_rows (applyTermAndFilters createQueryBuilder input) table).
Proof.
  unfold getTotalCount, count_rows, getRawMany.
  destruct (applyTermAndFilters_fields input) as (_ & _ & -> & -> & ->).
  simpl. apply sort_rows_length.
Qed.

(** C3. Facet filtering is conjunctive: with facet ids listed, every record
    returned by [getSearchResults] is a record of the index that carries
    every listed id; over records tagged {A}, {B} and {A,B} the filter
    [A,B] returns the {A,B} record alone; and a listed id that no record
    carries gives an empty result and a total of 0, not an error. *)
Theorem facet_filtering_is_conjunctive ctx input ids table
    (Hids : i_facetIds input = Some ids) :
  (exists rows,
      getSearchResults ctx input table
      = List.map (fun r => mapToSearchResult r (currencyCode (channel ctx))) rows
      /\ forall r, In r rows ->
           In (raw_si r) table
           /\ forall id, In id ids -> In id (facetValueIds (raw_si r)))
  /\ getSearchResults sample_ctx (input_with_facets ["A"; "B"]) table_A_B_AB
     = [mapToSearchResult {| raw_si := item_AB; raw_computed := [] |} "USD"]
  /\ forall id, In id ids ->
       (forall it, In it table -> ~ In id (facetValueIds it)) ->
       getSearchResults ctx input table = [] /\ getTotalCount ctx input table = 0.
Proof.
  split; [| split].
  - exists (getRawMany (searchResultsQuery input) table). split; [reflexivity |].
    intros r Hr. apply searchResults_row_passes in Hr.
    destruct Hr as (Hin & _ & Hf & _). split; [exact Hin |].
    unfold facet_filter in Hf. rewrite Hids in Hf. now apply carries_all_In.
  - reflexivity.
  - intros id Hid Hnone. split.
    + unfold getSearchResults.
      rewrite (empty_when_no_member (getRawMany (searchResultsQuery input) table));
        [reflexivity |].
      intros r Hr. apply searchResults_row_passes in Hr.
      destruct Hr as (Hin & _ & Hf & _).
      unfold facet_filter in Hf. rewrite Hids in Hf.
      apply (Hnone _ Hin). now apply (proj1 (carries_all_In ids _) Hf).
    + rewrite getTotalCount_grouped.
      rewrite (empty_when_no_member
                 (grouped_rows (applyTermAndFilters createQueryBuilder input) table));
        [reflexivity |].
      intros r Hr. apply grouped_rows_In, filtered_rows_In in Hr.
      destruct Hr as (it & Hin & Hw & _).
      rewrite applyTermAndFilters_where in Hw. apply andb_true_iff in Hw.
      destruct Hw as [_ Hf]. unfold facet_filter in Hf. rewrite Hids in Hf.
      apply (Hnone _ Hin). now apply (proj1 (carries_all_In ids _) Hf).
Qed.

Lemma ranked_row_score input t it :
  i_term input = Some t -> term_guard (Some t) = true ->
  row_score (eval_selects (term_selects input) it) = Some (weighted_score t it).
Proof.
  intros Ht Hg. unfold term_selects. rewrite Ht, Hg. reflexivity.
Qed.

Lemma score_first_descending keys a b sa sb :
  row_score a = Some sa -> row_score b = Some sb ->
  ordered_by ((OrdAlias "score", DESC) :: keys) a b -> (sb <= sa)%Q.
Proof.
  unfold ordered_by, order_leb, row_score.
  cbn [order_compare key_compare directed]. intros -> ->. cbn [option_Q_compare].
  intros Hle. apply Qnot_lt_le. intros Hlt. apply Qlt_alt in Hlt.
  unfold Qcompare in Hle, Hlt. rewrite Hlt in Hle. discriminate.
Qed.

(** C4. When the term triggers ranking, the candidates (the records of the
    table whose SKU contains the term or whose name, variant name or
    description match it, and that carry the listed facet ids) are all
    ranked: each of them is in the ranked sequence (one row per product when
    grouping is asked for), and the score of every row is
    sku_bonus (10 if the SKU contains the term, else 0)
    + rank(productName) * 2 + rank(productVariantName) * 1.5
    + rank(description) * 1.  The sequence is ordered by score descending
    first, then by name if a name sort is requested, then by price if a
    price sort is requested, and [getSearchResults] returns [take] rows of it
    after [skip]. *)
Theorem ranked_results_scored_and_ordered ctx input t table
    (Hterm : i_term input = Some t) (Hguard : term_guard (Some t) = true) :
  exists ranked,
    getSearchResults ctx input table
    = List.map (fun r => mapToSearchResult r (currencyCode (channel ctx)))
        (firstn (or_default (i_take input) 25)
                (skipn (or_default (i_skip input) 0) ranked))
    /\ (forall r, In r ranked ->
          In (raw_si r) table
          /\ term_matches t (raw_si r) = true
          /\ facet_filter input (raw_si r) = true
          /\ row_score r = Some (weighted_score t (raw_si r)))
    /\ (i_groupByProduct input <> Some true ->
        Permutation (List.map raw_si ranked)
          (List.filter (fun it => term_matches t it && facet_filter input it) table))
    /\ (i_groupByProduct input = Some true ->
        forall it, In it table -> term_matches t it = true -> facet_filter input it = true ->
          exists r, In r ranked /\ productId (raw_si r) = productId it)
    /\ Sorted (ordered_by ((OrdAlias "score", DESC) :: sort_keys (i_sort input))) ranked
    /\ Sorted (fun a b => (weighted_score t (raw_si b) <= weighted_score t (raw_si a))%Q)
              ranked.
Proof.
  set (q := searchResultsQuery input).
  destruct (searchResultsQuery_fields input) as (HS & HW & HG & HO & HT & HK).
  destruct (applyTermAndFilters_fields input) as (HS' & HG' & _).
  fold q in HS, HW, HG, HO, HT, HK.
  assert (Hwhere : forall it, eval_where (qb_where q) it
                              = term_matches t it && facet_filter input it).
  { intros it. rewrite HW, applyTermAndFilters_where. unfold term_filter.
    now rewrite Hterm, Hguard. }
  assert (Hfiltered : List.map raw_si (filtered_rows q table)
                      = List.filter (fun it => term_matches t it && facet_filter input it)
                                    table).
  { unfold filtered_rows. rewrite map_map. simpl. rewrite map_id.
    apply filter_ext, Hwhere. }
  assert (Hrow : forall r, In r (filtered_rows q table) ->
                   In (raw_si r) table
                   /\ term_matches t (raw_si r) = true
                   /\ facet_filter input (raw_si r) = true
                   /\ row_score r = Some (weighted_score t (raw_si r))).
  { intros r Hr. apply filtered_rows_In in Hr. destruct Hr as (it & Hit & Hw & ->).
    rewrite Hwhere in Hw. apply andb_true_iff in Hw. rewrite HS, HS'.
    simpl raw_si. repeat split; try tauto. now apply ranked_row_score. }
  exists (sort_rows (qb_orderBys q) (grouped_rows q table)).
  assert (Hsorted : Sorted (ordered_by ((OrdAlias "score", DESC) :: sort_keys (i_sort input)))
                           (sort_rows (qb_orderBys q) (grouped_rows q table))).
  { pose proof (sort_rows_sorted (qb_orderBys q) (grouped_rows q table)) as Hs.
    rewrite HO, Hterm, Hguard in Hs at 1. exact Hs. }
  assert (Hscored : forall r, In r (sort_rows (qb_orderBys q) (grouped_rows q table)) ->
                      In (raw_si r) table
                      /\ term_matches t (raw_si r) = true
                      /\ facet_filter input (raw_si r) = true
                      /\ row_score r = Some (weighted_score t (raw_si r))).
  { intros r Hr. apply sort_rows_In, grouped_rows_In in Hr. now apply Hrow. }
  split; [| split; [exact Hscored | split; [| split; [| split; [exact Hsorted |]]]]].
  - unfold getSearchResults. fold q. rewrite getRawMany_paginated, HT, HK. reflexivity.
  - intros Hflat. rewrite <- Hfiltered.
    apply Permutation_map. rewrite <- sort_rows_perm. unfold grouped_rows.
    rewrite HG, HG'.
    destruct (i_groupByProduct input) as [[|] |]; [congruence | reflexivity | reflexivity].
  - intros Hgroup it Hit Hm Hf.
    assert (Hpid : In (productId it)
                      (List.map (fun r => productId (raw_si r))
                                (group_rows [] (filtered_rows q table)))).
    { apply group_rows_products. split; [| tauto].
      rewrite <- (map_map raw_si productId), Hfiltered. apply in_map, filter_In.
      rewrite Hm, Hf. tauto. }
    apply in_map_iff in Hpid. destruct Hpid as (r & Hr & Hin). exists r. split; [| exact Hr].
    apply sort_rows_In. unfold grouped_rows. now rewrite HG, HG', Hgroup.
  - eapply Sorted_weaken_In; [| exact Hsorted].
    intros a b Ha Hb. apply score_first_descending; now apply Hscored.
Qed.


Lemma group_rows_distinct_products rows :
  List.length (group_rows [] rows)
  = size (list_to_set (List.map (fun r => productId (raw_si r)) rows) : gset string).
Proof.
  rewrite <- (length_map (fun r => productId (raw_si r)) (group_rows [] rows)).
  rewrite <- (size_list_to_set (C := gset string))
    by apply NoDup_ListNoDup, group_rows_NoDup.
  f_equal. apply set_eq. intros pid. rewrite !elem_of_list_to_set, !list_elem_of_In.
  rewrite group_rows_products. simpl. tauto.
Qed.

(** C5. [getTotalCount] is the length of what [getSearchResults] returns
    for the same input once pagination is removed: the paginated result is
    [take] rows after [skip] of that sequence, the term filter, the facet
    filter and the grouping being the same; with [groupByProduct] set it is
    the number of distinct products among the matching records. *)
Theorem total_count_is_unpaginated_length ctx input table :
  let unpaged := getRawMany (unpaginated (searchResultsQuery input)) table in
  getTotalCount ctx input table = List.length unpaged
  /\ getSearchResults ctx input table
     = List.map (fun r => mapToSearchResult r (currencyCode (channel ctx)))
         (firstn (or_default (i_take input) 25)
                 (skipn (or_default (i_skip input) 0) unpaged))
  /\ (i_groupByProduct input = Some true ->
      getTotalCount ctx input table
      = size (list_to_set
                (List.map productId
                   (List.filter (fun it => term_filter input it && facet_filter input it)
                                table)) : gset string))
  /\ (i_groupByProduct input <> Some true ->
      getTotalCount ctx input table
      = List.length (List.filter (fun it => term_filter input it && facet_filter input it)
                                 table)).
Proof.
  intros unpaged.
  destruct (searchResultsQuery_fields input) as (HS & HW & HG & _ & HT & HK).
  destruct (applyTermAndFilters_fields input) as (_ & HG' & _).
  assert (Hfilter : List.filter
                      (eval_where (qb_where (applyTermAndFilters createQueryBuilder input)))
                      table
                    = List.filter (fun it => term_filter input it && facet_filter input it)
                                  table).
  { apply filter_ext. intros it. apply applyTermAndFilters_where. }
  split; [| split; [| split]].
  - subst unpaged. rewrite getRawMany_unpaginated_length, getTotalCount_grouped.
    f_equal. symmetry. now apply grouped_rows_congr.
  - unfold getSearchResults. rewrite getRawMany_paginated, HT, HK. reflexivity.
  - intros Hg. rewrite getTotalCount_grouped. unfold grouped_rows.
    rewrite HG', Hg. rewrite group_rows_distinct_products.
    unfold filtered_rows. rewrite map_map. simpl. now rewrite Hfilter.
  - intros Hg. rewrite getTotalCount_grouped. unfold grouped_rows.
    rewrite HG'. replace (match i_groupByProduct input with
                          | Some true => Some GrpProductId
                          | _ => None
                          end) with (@None GroupColumn)
      by (destruct (i_groupByProduct input) as [[|] |]; congruence).
    unfold filtered_rows. now rewrite length_map, Hfilter.
Qed.

(** C10. With [take] 0 or absent the page holds the first 25 rows after the
    skipped ones, and with [skip] 0 or absent nothing is skipped: a [take]
    of 0 is the same as no [take], so a page of zero rows cannot be
    requested. *)
Theorem zero_take_gives_default_page ctx input table
    (Htake : i_take input = None \/ i_take input = Some 0) :
  let unpaged := getRawMany (unpaginated (searchResultsQuery input)) table in
  getSearchResults ctx input table
  = List.map (fun r => mapToSearchResult r (currencyCode (channel ctx)))
      (firstn 25 (skipn (or_default (i_skip input) 0) unpaged))
  /\ (i_skip input = None \/ i_skip input = Some 0 ->
      getSearchResults ctx input table
      = List.map (fun r => mapToSearchResult r (currencyCode (channel ctx)))
          (firstn 25 unpaged)
      /\ (unpaged <> [] -> getSearchResults ctx input table <> [])).
Proof.
  intros unpaged.
  destruct (searchResultsQuery_fields input) as (_ & _ & _ & _ & HT & HK).
  assert (Hpage : getSearchResults ctx input table
                  = List.map (fun r => mapToSearchResult r (currencyCode (channel ctx)))
                      (firstn 25 (skipn (or_default (i_skip input) 0) unpaged))).
  { unfold getSearchResults. rewrite getRawMany_paginated, HT, HK.
    destruct Htake as [-> | ->]; reflexivity. }
  split; [exact Hpage |].
  intros Hskip. rewrite Hpage.
  replace (or_default (i_skip input) 0) with 0 by (destruct Hskip as [-> | ->]; reflexivity).
  simpl. split; [reflexivity |].
  destruct unpaged as [| r rest]; [congruence | simpl; discriminate].
Qed.
End StrategyClaims.

(* ===================================================================== *)
(** * Properties of the index store                                       *)
(* ===================================================================== *)

Lemma upsert_all_cons (it : SearchIndexItem) (items : list SearchIndexItem)
    (m : gmap (string * string) SearchIndexItem) :
  upsert_all (it :: items) m = upsert_all items (<[item_key it := it]> m).
Proof. reflexivity. Qed.

(** What [save] leaves under a key depends on the store only through that key. *)
Lemma upsert_all_lookup_cong (items : list SearchIndexItem)
    (m m' : gmap (string * string) SearchIndexItem) k :
  m !! k = m' !! k -> upsert_all items m !! k = upsert_all items m' !! k.
Proof.
  revert m m'. induction items as [| it rest IH]; intros m m' Hk; [exact Hk |].
  rewrite !upsert_all_cons. apply IH.
  destruct (decide (item_key it = k)) as [-> | Hne].
  - now rewrite !lookup_insert_eq.
  - now rewrite !lookup_insert_ne.
Qed.

Lemma upsert_all_lookup_other (items : list SearchIndexItem)
    (m : gmap (string * string) SearchIndexItem) k :
  ~ In k (List.map item_key items) -> upsert_all items m !! k = m !! k.
Proof.
  revert m. induction items as [| it rest IH]; intros m Hk; [reflexivity |].
  rewrite upsert_all_cons, IH.
  - apply lookup_insert_ne. intros Heq. apply Hk. now left.
  - intros Hin. apply Hk. now right.
Qed.

(** Under the key of a saved record the earlier content does not matter. *)
Lemma upsert_all_lookup_saved (items : list SearchIndexItem)
    (m m' : gmap (string * string) SearchIndexItem) k :
  In k (List.map item_key items) -> upsert_all items m !! k = upsert_all items m' !! k.
Proof.
  revert m m'. induction items as [| it rest IH]; intros m m' Hk; [destruct Hk |].
  rewrite !upsert_all_cons.
  destruct (decide (item_key it = k)) as [Heq | Hne].
  - apply upsert_all_lookup_cong. subst k. now rewrite !lookup_insert_eq.
  - apply IH. destruct Hk as [Heq | Hin]; [contradiction | exact Hin].
Qed.

Lemma upsert_all_is_Some (items : list SearchIndexItem)
    (m : gmap (string * string) SearchIndexItem) k :
  is_Some (m !! k) -> is_Some (upsert_all items m !! k).
Proof.
  revert m. induction items as [| it rest IH]; intros m Hk; [exact Hk |].
  rewrite upsert_all_cons. apply IH.
  destruct (decide (item_key it = k)) as [-> | Hne].
  - rewrite lookup_insert_eq. eauto.
  - now rewrite lookup_insert_ne.
Qed.

Lemma upsert_all_saved_is_Some (items : list SearchIndexItem)
    (m : gmap (string * string) SearchIndexItem) k :
  In k (List.map item_key items) -> is_Some (upsert_all items m !! k).
Proof.
  revert m. induction items as [| it rest IH]; intros m Hk; [destruct Hk |].
  rewrite upsert_all_cons. destruct Hk as [<- | Hin].
  - apply upsert_all_is_Some. rewrite lookup_insert_eq. eauto.
  - now apply IH.
Qed.

(** Saving the same records again changes nothing. *)
Lemma upsert_all_idempotent (items : list SearchIndexItem)
    (m : gmap (string * string) SearchIndexItem) :
  upsert_all items (upsert_all items m) = upsert_all items m.
Proof.
  apply map_eq. intros k.
  destruct (key_in_dec k (List.map item_key items))
    as [Hin | Hout].
  - now apply upsert_all_lookup_saved.
  - now rewrite upsert_all_lookup_other.
Qed.

Lemma delete_all_lookup (keys : list (string * string))
    (m : gmap (string * string) SearchIndexItem) k :
  delete_all keys m !! k = if key_in_dec k keys
                           then None else m !! k.
Proof.
  revert m. induction keys as [| a rest IH]; intros m; [reflexivity |].
  change (delete_all (a :: rest) m) with (delete_all rest (delete a m)).
  rewrite IH. destruct (key_in_dec k rest) as [Hin | Hout];
    destruct (key_in_dec k (a :: rest)) as [Hin' | Hout']; simpl in *; try tauto.
  - destruct Hin' as [-> | Hin']; [apply lookup_delete_eq | tauto].
  - apply lookup_delete_ne. tauto.
Qed.

(** Deleting the same keys again changes nothing. *)
Lemma delete_all_idempotent (keys : list (string * string))
    (m : gmap (string * string) SearchIndexItem) :
  delete_all keys (delete_all keys m) = delete_all keys m.
Proof.
  apply map_eq. intros k. rewrite !delete_all_lookup.
  now destruct (key_in_dec k keys).
Qed.

(** ** [unique] *)

Lemma unique_In (l : list string) (x : string) : In x (unique l) <-> In x l.
Proof.
  induction l as [| y rest IH]; simpl; [tauto |].
  rewrite filter_In, IH, negb_true_iff, String.eqb_neq.
  destruct (string_dec y x) as [-> | Hne]; [tauto |].
  split; [tauto |]. intros [Heq | Hin]; [contradiction | right; split; congruence].
Qed.

Lemma unique_NoDup (l : list string) : List.NoDup (unique l).
Proof.
  induction l as [| y rest IH]; simpl; constructor.
  - rewrite filter_In, String.eqb_refl. simpl. intros [_ Hf]. discriminate.
  - now apply List.NoDup_filter.
Qed.

Lemma unique_union (l1 l2 : list string) : union_of l1 l2 (unique (l1 ++ l2)).
Proof.
  split; [apply unique_NoDup |]. intros x. now rewrite unique_In, in_app_iff.
Qed.

(** ** [map_result] *)

Lemma map_result_Ok {A B} (f : A -> Result B) (l : list A) (ys : list B) :
  map_result f l = Ok ys ->
  List.length ys = List.length l /\ forall y, In y ys -> exists x, In x l /\ f x = Ok y.
Proof.
  revert ys. induction l as [| x rest IH]; simpl; intros ys Hok.
  - injection Hok as <-. split; [reflexivity | intros y []].
  - destruct (f x) as [y0 | e] eqn:Hfx; [| discriminate].
    destruct (map_result f rest) as [ys0 | e]; [| discriminate].
    injection Hok as <-. destruct (IH ys0 eq_refl) as [Hlen Hall]. split.
    + simpl. now rewrite Hlen.
    + intros y [<- | Hin]; [exists x; tauto |].
      destruct (Hall y Hin) as (x' & Hx' & Hf). exists x'. tauto.
Qed.

(* ===================================================================== *)
(** * Properties of FulltextSearchService                                 *)
(* ===================================================================== *)

Section ServiceFacts.
Context `{Translator}.
Import FulltextSearchService.

Lemma same_catalog_refl db : same_catalog db db.
Proof. split; reflexivity. Qed.

Lemma saveSearchIndexItems_run lang vs db :
  saveSearchIndexItems lang vs db
  = match map_result (fun v => translateDeep v lang) vs with
    | Ok tvs =>
        write_index (OpSave (List.map (new_SearchIndexItem lang) tvs))
                    (upsert_all (List.map (new_SearchIndexItem lang) tvs)) db
    | Err e => (Err e, db)
    end.
Proof.
  unfold saveSearchIndexItems, bind, lift.
  destruct (map_result _ vs); reflexivity.
Qed.

(** What [update] collects depends on the catalog tables only; at most one
    of the two lists is non-empty, and the variants come from the catalog. *)
Lemma update_collect_spec e db :
  exists uv rv,
    (uv = [] \/ rv = [])
    /\ (forall v, In v uv -> In v (db_variants db))
    /\ forall db', same_catalog db db' -> update_collect e db' = (Ok (uv, rv), db').
Proof.
  destruct e as [id | id].
  - destruct (List.find (fun p => String.eqb (p_id p) id) (db_products db))
      as [p |] eqn:Hfind.
    + destruct (deletedAt p) as [d |] eqn:Hdel.
      * exists [], (List.map v_id (variants_of p db)).
        split; [now left | split; [intros v [] |]].
        intros db' [Hp Hv]. unfold update_collect, bind, Product_findOne, read.
        rewrite Hp, Hfind, Hdel. unfold variants_of. now rewrite Hv.
      * exists (List.filter
                  (fun v => existsb (String.eqb (v_id v))
                                    (List.map v_id (variants_of p db)))
                  (db_variants db)), [].
        split; [now right | split].
        -- intros v Hin. apply filter_In in Hin. tauto.
        -- intros db' [Hp Hv].
           unfold update_collect, bind, Product_findOne, ProductVariant_findByIds, read.
           rewrite Hp, Hfind, Hdel. unfold variants_of. now rewrite Hv.
    + exists [], []. split; [now left | split; [intros v [] |]].
      intros db' [Hp Hv]. unfold update_collect, bind, Product_findOne, read.
      now rewrite Hp, Hfind.
  - destruct (List.find (fun v => String.eqb (v_id v) id) (db_variants db))
      as [v0 |] eqn:Hfind.
    + exists [v0], []. split; [now right | split].
      * intros v [<- | []]. eapply find_some, Hfind.
      * intros db' [Hp Hv]. unfold update_collect, bind, ProductVariant_findOne, read.
        now rewrite Hv, Hfind.
    + exists [], []. split; [now left | split; [intros v [] |]].
      intros db' [Hp Hv]. unfold update_collect, bind, ProductVariant_findOne, read.
      now rewrite Hv, Hfind.
  Qed.

Lemma update_collect_deleted id p d db :
  List.find (fun p => String.eqb (p_id p) id) (db_products db) = Some p ->
  deletedAt p = Some d ->
  update_collect (a_Product id) db = (Ok ([], List.map v_id (variants_of p db)), db).
Proof.
  intros Hfind Hdel. unfold update_collect, bind, Product_findOne, read.
  now rewrite Hfind, Hdel.
Qed.

(** The second half of [update] rewrites the index by an idempotent function
    fixed by the two lists, and every [save] it issues holds the records
    built from the translated variants. *)
Lemma update_apply_spec ctx uv rv :
  uv = [] \/ rv = [] ->
  exists (f : gmap (string * string) SearchIndexItem -> gmap (string * string) SearchIndexItem)
         (delta : list StoreOp),
    (forall m, f (f m) = f m)
    /\ (forall items, In (OpSave items) delta ->
          exists tvs,
            map_result (fun v => translateDeep v (ctx_languageCode ctx)) uv = Ok tvs
            /\ items = List.map (new_SearchIndexItem (ctx_languageCode ctx)) tvs)
    /\ forall db, exists r,
         update_apply ctx uv rv db
         = (r, {| db_products := db_products db; db_variants := db_variants db;
                  search_index := f (search_index db);
                  writes := writes db ++ delta |}).
Proof.
  intros [-> | ->].
  - destruct rv as [| id rest].
    + exists (fun m => m), []. split; [reflexivity | split; [intros items [] |]].
      intros [ps vs idx ws]. exists (Ok tt). simpl. now rewrite app_nil_r.
    + exists (delete_all (List.map (fun id => (id, ctx_languageCode ctx)) (id :: rest))),
             [OpDeleteKeys (List.map (fun id => (id, ctx_languageCode ctx)) (id :: rest))].
      split; [apply delete_all_idempotent | split].
      * intros items [Hop | []]. discriminate.
      * intros db. exists (Ok tt). reflexivity.
  - destruct uv as [| v rest].
    + exists (fun m => m), []. split; [reflexivity | split; [intros items [] |]].
      intros [ps vs idx ws]. exists (Ok tt). simpl. now rewrite app_nil_r.
    + destruct (map_result (fun v => translateDeep v (ctx_languageCode ctx)) (v :: rest))
        as [tvs | e] eqn:Hmap.
      * exists (upsert_all (List.map (new_SearchIndexItem (ctx_languageCode ctx)) tvs)),
               [OpSave (List.map (new_SearchIndexItem (ctx_languageCode ctx)) tvs)].
        split; [apply upsert_all_idempotent | split].
        -- intros items [Hop | []]. injection Hop as <-. now exists tvs.
        -- intros db. exists (Ok tt). unfold update_apply, bind.
           rewrite saveSearchIndexItems_run, Hmap. reflexivity.
      * exists (fun m => m), []. split; [reflexivity | split; [intros items [] |]].
        intros [ps vs idx ws]. exists (Err e). unfold update_apply, bind.
        rewrite saveSearchIndexItems_run, Hmap. simpl. now rewrite app_nil_r.
Qed.

Lemma update_apply_remove ctx rv db :
  fst (update_apply ctx [] rv db) = Ok tt
  /\ search_index (snd (update_apply ctx [] rv db))
     = delete_all (List.map (fun id => (id, ctx_languageCode ctx)) rv) (search_index db).
Proof. destruct rv; split; reflexivity. Qed.

Lemma reindex_run lang db :
  let vs := List.filter
              (fun v => match deletedAt (product v) with None => true | Some _ => false end)
              (db_variants db) in
  reindex lang db
  = match map_result (fun v => translateDeep v lang) vs with
    | Ok tvs =>
        (Ok {| success := true; indexedItemCount := List.length vs |},
         {| db_products := db_products db; db_variants := db_variants db;
            search_index :=
              upsert_all (List.map (new_SearchIndexItem lang) tvs)
                         (rows_not_of_language lang (search_index db));
            writes := (writes db ++ [OpDeleteLanguage lang])
                      ++ [OpSave (List.map (new_SearchIndexItem lang) tvs)] |})
    | Err e =>
        (Err e,
         {| db_products := db_products db; db_variants := db_variants db;
            search_index := rows_not_of_language lang (search_index db);
            writes := writes db ++ [OpDeleteLanguage lang] |})
    end.
Proof.
  intros vs. unfold reindex, bind, ProductVariant_notDeleted, read,
    SearchIndexItem_delete_language, write_index. fold vs.
  rewrite saveSearchIndexItems_run. simpl.
  destruct (map_result _ vs); reflexivity.
Qed.

Lemma reindex_runs_app ops ops' :
  reindex_runs (ops ++ ops') = reindex_runs ops + reindex_runs ops'.
Proof. unfold reindex_runs. now rewrite List.filter_app, length_app. Qed.

(** One run of [reindex] issues one [delete({ languageCode })], first. *)
Lemma reindex_writes lang db :
  exists tail,
    writes (snd (reindex lang db)) = writes db ++ OpDeleteLanguage lang :: tail
    /\ reindex_runs tail = 0.
Proof.
  pose proof (reindex_run lang db) as Hrun. simpl in Hrun. rewrite Hrun.
  destruct (map_result _ _) as [tvs | e]; simpl.
  - exists [OpSave (List.map (new_SearchIndexItem lang) tvs)].
    now rewrite <- app_assoc.
  - now exists [].
Qed.

Lemma checkIndex_run lang db :
  checkIndex lang db
  = if Nat.eqb (size (rows_of_language lang (search_index db))) 0
    then (match fst (reindex lang db) with Ok _ => Ok tt | Err e => Err e end,
          snd (reindex lang db))
    else (Ok tt, db).
Proof.
  unfold checkIndex, bind, SearchIndexItem_count, read.
  destruct (Nat.eqb _ 0); [| reflexivity].
  destruct (reindex lang db) as [[r | e] db']; reflexivity.
Qed.

Lemma new_SearchIndexItem_union lang tv :
  union_of (List.map (fun fv => ID_toString (facet_id (facet fv))) (v_facetValues tv))
           (List.map (fun fv => ID_toString (facet_id (facet fv)))
                     (p_facetValues (product tv)))
           (facetIds (new_SearchIndexItem lang tv))
  /\ union_of (List.map (fun fv => ID_toString (fv_id fv)) (v_facetValues tv))
              (List.map (fun fv => ID_toString (fv_id fv)) (p_facetValues (product tv)))
              (facetValueIds (new_SearchIndexItem lang tv)).
Proof. split; apply unique_union. Qed.

Lemma saved_by_delta {A} (t : Task A) db delta items :
  writes (snd (t db)) = writes db ++ delta ->
  saved_by t db items -> In (OpSave items) delta.
Proof.
  intros Hw (before & after & Hs). rewrite Hw in Hs. apply app_inv_head in Hs.
  rewrite Hs. apply in_or_app. right. now left.
Qed.
End ServiceFacts.

Section ServiceClaims.
Context `{Translator}.
Import FulltextSearchService.

(** C2, as the code has it. When the notified product is soft-deleted,
    [update] succeeds and deletes the index records of every variant of the
    product in the language of the request, and only those: records of the
    same variants in other languages and records of other variants are
    left as they were. *)
Theorem soft_delete_removes_variants_in_request_language ctx id p d db
    (Hfind : List.find (fun p => String.eqb (p_id p) id) (db_products db) = Some p)
    (Hdeleted : deletedAt p = Some d) :
  let db' := snd (update ctx (a_Product id) db) in
  fst (update ctx (a_Product id) db) = Ok tt
  /\ (forall v, In v (variants_of p db) ->
        search_index db' !! (v_id v, ctx_languageCode ctx) = None)
  /\ (forall vid lang,
        lang <> ctx_languageCode ctx \/ ~ In vid (List.map v_id (variants_of p db)) ->
        search_index db' !! (vid, lang) = search_index db !! (vid, lang)).
Proof.
  intros db'. subst db'. unfold update, bind.
  rewrite (update_collect_deleted id p d db Hfind Hdeleted). simpl.
  destruct (update_apply_remove ctx (List.map v_id (variants_of p db)) db) as [Hr Hidx].
  destruct (update_apply ctx [] (List.map v_id (variants_of p db)) db) as [r db'] eqn:Hrun.
  simpl in *. subst r. rewrite Hidx. split; [| split].
  - destruct db'. reflexivity.
  - intros v Hv. rewrite delete_all_lookup.
    destruct (key_in_dec _ _) as [_ | Hout]; [destruct db'; reflexivity |].
    exfalso. apply Hout. apply in_map_iff. exists (v_id v). split; [reflexivity |].
    now apply in_map.
  - intros vid lang Hother. rewrite delete_all_lookup.
    destruct (key_in_dec _ _) as [Hin | _]; [| destruct db'; reflexivity].
    exfalso. apply in_map_iff in Hin. destruct Hin as (vid' & Heq & Hin).
    injection Heq as Hvid Hlang. rewrite Hvid in Hin. symmetry in Hlang. tauto.
Qed.

(** C6. Every record saved to the index by [update] or by [reindex] is the
    record of a catalog variant as translated: it carries that variant's id
    and its product's id, its [facetIds] is the duplicate-free union of the
    facet ids of that variant's facet values and of its product's facet
    values, and its [facetValueIds] is the same union over the facet-value
    ids.  When the translation keeps the id and the facet values, these are
    the id and the facet values of the catalog variant itself. *)
Theorem saved_records_carry_facet_union db items it
    (Hsaved : (exists ctx e, saved_by (update ctx e) db items)
              \/ (exists lang, saved_by (reindex lang) db items))
    (Hit : In it items) :
  exists v tv,
    In v (db_variants db)
    /\ translateDeep v (languageCode it) = Ok tv
    /\ productVariantId it = v_id tv
    /\ productId it = p_id (product tv)
    /\ union_of (List.map (fun fv => ID_toString (facet_id (facet fv))) (v_facetValues tv))
                (List.map (fun fv => ID_toString (facet_id (facet fv)))
                          (p_facetValues (product tv)))
                (facetIds it)
    /\ union_of (List.map (fun fv => ID_toString (fv_id fv)) (v_facetValues tv))
                (List.map (fun fv => ID_toString (fv_id fv)) (p_facetValues (product tv)))
                (facetValueIds it)
    /\ (v_id tv = v_id v -> v_facetValues tv = v_facetValues v ->
        p_facetValues (product tv) = p_facetValues (product v) ->
        productVariantId it = v_id v
        /\ union_of (List.map (fun fv => ID_toString (facet_id (facet fv))) (v_facetValues v))
                    (List.map (fun fv => ID_toString (facet_id (facet fv)))
                              (p_facetValues (product v)))
                    (facetIds it)
        /\ union_of (List.map (fun fv => ID_toString (fv_id fv)) (v_facetValues v))
                    (List.map (fun fv => ID_toString (fv_id fv)) (p_facetValues (product v)))
                    (facetValueIds it)).
Proof.
  assert (Hbuilt : exists lang vs tvs,
             (forall v, In v vs -> In v (db_variants db))
             /\ map_result (fun v => translateDeep v lang) vs = Ok tvs
             /\ items = List.map (new_SearchIndexItem lang) tvs).
  { destruct Hsaved as [(ctx & e & Hs) | (lang & Hs)].
    - destruct (update_collect_spec e db) as (uv & rv & Hor & Hsub & Hcollect).
      destruct (update_apply_spec ctx uv rv Hor) as (f & delta & _ & Hdelta & Happly).
      destruct (Happly db) as [r Hrun].
      assert (Hw : writes (snd (update ctx e db)) = writes db ++ delta).
      { unfold update, bind. rewrite (Hcollect db (same_catalog_refl db)). simpl.
        now rewrite Hrun. }
      destruct (Hdelta items (saved_by_delta _ _ _ _ Hw Hs)) as (tvs & Hmap & ->).
      now exists (ctx_languageCode ctx), uv, tvs.
    - pose proof (reindex_run lang db) as Hrun. simpl in Hrun.
      set (vs := List.filter _ (db_variants db)) in Hrun.
      destruct (map_result (fun v => translateDeep v lang) vs) as [tvs | err] eqn:Hmap.
      + assert (Hw : writes (snd (reindex lang db))
                     = writes db ++ [OpDeleteLanguage lang;
                                     OpSave (List.map (new_SearchIndexItem lang) tvs)]).
        { rewrite Hrun. simpl. now rewrite <- app_assoc. }
        pose proof (saved_by_delta _ _ _ _ Hw Hs) as [Hop | [Hop | []]];
          [discriminate |]. injection Hop as <-.
        exists lang, vs, tvs. split; [| tauto].
        intros v Hv. apply filter_In in Hv. tauto.
      + assert (Hw : writes (snd (reindex lang db)) = writes db ++ [OpDeleteLanguage lang]).
        { now rewrite Hrun. }
        pose proof (saved_by_delta _ _ _ _ Hw Hs) as [Hop | []]. discriminate. }
  destruct Hbuilt as (lang & vs & tvs & Hsub & Hmap & ->).
  apply in_map_iff in Hit. destruct Hit as (tv & <- & Htv).
  destruct (map_result_Ok _ _ _ Hmap) as [_ Hall].
  destruct (Hall tv Htv) as (v & Hv & Hf).
  destruct (new_SearchIndexItem_union lang tv) as [Hfacets Hvalues].
  exists v, tv.
  split; [now apply Hsub | split; [exact Hf | split; [reflexivity | split; [reflexivity |]]]].
  split; [exact Hfacets | split; [exact Hvalues |]].
  intros Hid Hown Hparent. rewrite <- Hid, <- Hown, <- Hparent.
  split; [reflexivity | split; [exact Hfacets | exact Hvalues]].
Qed.


(** C7. [update] is idempotent on the index: with the catalog unchanged,
    handling the same notification a second time leaves the index exactly
    as the first handling left it. *)
Theorem update_is_idempotent ctx e db :
  let db1 := snd (update ctx e db) in
  search_index (snd (update ctx e db1)) = search_index db1.
Proof.
  intros db1. subst db1.
  destruct (update_collect_spec e db) as (uv & rv & Hor & _ & Hcollect).
  destruct (update_apply_spec ctx uv rv Hor) as (f & delta & Hidem & _ & Happly).
  assert (Hrun : forall db0, same_catalog db db0 ->
            same_catalog db (snd (update ctx e db0))
            /\ search_index (snd (update ctx e db0)) = f (search_index db0)).
  { intros db0 Hsame. unfold update, bind. rewrite (Hcollect db0 Hsame). simpl.
    destruct (Happly db0) as [r ->]. simpl. split; [| reflexivity].
    destruct Hsame as [Hp Hv]. split; simpl; assumption. }
  destruct (Hrun db (same_catalog_refl db)) as [Hsame1 Hidx1].
  destruct (Hrun _ Hsame1) as [_ Hidx2].
  now rewrite Hidx2, Hidx1, Hidem.
Qed.

(** C8, as the code has it. [checkIndex] runs [reindex] exactly once when
    the index holds no record for the language, and writes nothing when it
    holds one; so a [reindex] that succeeded and indexed at least one
    variant, followed by [checkIndex] for the same language, triggers no
    second reindex. *)
Theorem checkIndex_reindexes_only_when_empty lang db :
  (size (rows_of_language lang (search_index db)) = 0 ->
     snd (checkIndex lang db) = snd (reindex lang db)
     /\ reindex_runs (writes (snd (checkIndex lang db))) = S (reindex_runs (writes db)))
  /\ (size (rows_of_language lang (search_index db)) <> 0 ->
        checkIndex lang db = (Ok tt, db))
  /\ (forall r db1,
        reindex lang db = (Ok r, db1) -> 0 < indexedItemCount r ->
        checkIndex lang db1 = (Ok tt, db1)).
Proof.
  assert (Hnonempty : forall d, size (rows_of_language lang (search_index d)) <> 0 ->
                                checkIndex lang d = (Ok tt, d)).
  { intros d Hsize. rewrite checkIndex_run.
    now destruct (Nat.eqb_spec (size (rows_of_language lang (search_index d))) 0). }
  split; [| split; [apply Hnonempty |]].
  - intros Hsize. rewrite checkIndex_run, Hsize. simpl. split; [reflexivity |].
    destruct (reindex_writes lang db) as (tail & -> & Htail).
    change (OpDeleteLanguage lang :: tail) with ([OpDeleteLanguage lang] ++ tail).
    rewrite !reindex_runs_app, Htail. change (reindex_runs [OpDeleteLanguage lang]) with 1.
    lia.
  - intros r db1 Hre Hcount. apply Hnonempty.
    pose proof (reindex_run lang db) as Hrun. simpl in Hrun. rewrite Hre in Hrun.
    set (vs := List.filter _ (db_variants db)) in Hrun.
    destruct (map_result (fun v => translateDeep v lang) vs) as [tvs | err] eqn:Hmap;
      [| discriminate].
    injection Hrun as -> ->. simpl in Hcount.
    destruct (map_result_Ok _ _ _ Hmap) as [Hlen _].
    destruct tvs as [| tv tvs']; [simpl in Hlen; lia |].
    simpl search_index.
    set (items := List.map (new_SearchIndexItem lang) (tv :: tvs')).
    assert (Hkey : In (v_id tv, lang) (List.map item_key items)) by now left.
    destruct (upsert_all_saved_is_Some items
                (rows_not_of_language lang (search_index db)) _ Hkey) as [x Hx].
    apply (map_size_ne_0_lookup_2 _ (v_id tv, lang)). exists x.
    unfold rows_of_language. now apply map_lookup_filter_Some.
Qed.

(** C9. Strategy selection in the constructor: mysql and mariadb get the
    MySQL strategy, sqlite and sqljs the SQLite strategy, postgres the
    Postgres strategy, and every other database type makes the constructor
    throw InternalServerError, so no service is created. *)
Theorem strategy_selection_total_or_fatal (type : string) :
  (type = "mysql" \/ type = "mariadb" ->
     constructor type = Ok {| searchStrategy := new_MysqlSearchStrategy |})
  /\ (type = "sqlite" \/ type = "sqljs" ->
        constructor type = Ok {| searchStrategy := new_SqliteSearchStrategy |})
  /\ (type = "postgres" ->
        constructor type = Ok {| searchStrategy := new_PostgresSearchStrategy |})
  /\ (~ In type ["mysql"; "mariadb"; "sqlite"; "sqljs"; "postgres"] ->
        constructor type
        = Err (InternalServerError "error.database-not-supported-by-default-search-plugin")).
Proof.
  repeat split.
  - intros [-> | ->]; reflexivity.
  - intros [-> | ->]; reflexivity.
  - intros ->. reflexivity.
  - intros Hnot. unfold constructor.
    repeat match goal with
           | |- context [String.eqb type ?s] =>
               destruct (String.eqb_spec type s) as [-> | _];
               [exfalso; apply Hnot; simpl; tauto |]
           end.
    reflexivity.
Qed.
End ServiceClaims.

(* ===================================================================== *)
(** * The properties at concrete inputs                                   *)
(* ===================================================================== *)

(** C1 (the code departs from the specification). A term of exactly two
    characters does not trigger term filtering or ranking: for the term "zz",
    which no record of the sample table matches, [getSearchResults] still
    returns all three records, in table order and without a score column,
    where the specification has them filtered out. With the three-character
    term "zzz" the term filter applies and nothing is returned. *)
Theorem two_character_term_is_not_filtered :
  forallb (fun it => negb (@term_matches sample_engine "zz" it)) table_A_B_AB = true
  /\ @MysqlSearchStrategy.getSearchResults sample_engine sample_mapper
       sample_ctx (input_with_term "zz") table_A_B_AB
     = List.map (fun it => ({| raw_si := it; raw_computed := [] |}, "USD")) table_A_B_AB
  /\ @MysqlSearchStrategy.getSearchResults sample_engine sample_mapper
       sample_ctx (input_with_term "zzz") table_A_B_AB
     = [].
Proof. repeat split. Qed.

Lemma facet_filtering_is_conjunctive_witness :
  i_facetIds (input_with_facets ["A"; "Z"]) = Some ["A"; "Z"]
  /\ In "Z" ["A"; "Z"]
  /\ (forall it, In it table_A_B_AB -> ~ In "Z" (facetValueIds it))
  /\ @MysqlSearchStrategy.getSearchResults sample_engine sample_mapper
       sample_ctx (input_with_facets ["A"; "Z"]) table_A_B_AB = []
  /\ @MysqlSearchStrategy.getTotalCount sample_engine
       sample_ctx (input_with_facets ["A"; "Z"]) table_A_B_AB = 0.
Proof.
  assert (Hnone : forall it, In it table_A_B_AB -> ~ In "Z" (facetValueIds it)).
  { intros it [<- | [<- | [<- | []]]]; simpl; intros Hin;
      repeat destruct Hin as [Hin | Hin]; try discriminate; exact Hin. }
  split; [reflexivity | split; [right; left; reflexivity | split; [exact Hnone |]]].
  apply (proj2 (proj2 (@facet_filtering_is_conjunctive sample_engine sample_mapper
                         sample_ctx (input_with_facets ["A"; "Z"]) ["A"; "Z"]
                         table_A_B_AB eq_refl))
           "Z" (or_intror (or_introl eq_refl)) Hnone).
Defined.

Lemma ranked_results_scored_and_ordered_witness :
  i_term input_shirt_by_price = Some "shirt"
  /\ MysqlSearchStrategy.term_guard (Some "shirt") = true
  /\ List.map (fun p => (productVariantId (raw_si (fst p)),
                         option_map Qred (row_score (fst p))))
       (@MysqlSearchStrategy.getSearchResults sample_engine sample_mapper
          sample_ctx input_shirt_by_price table_shirts)
     = [("5", Some (29 # 2)%Q); ("4", Some 10%Q); ("7", Some 2%Q); ("3", Some 2%Q);
        ("2", Some (3 # 2)%Q); ("1", Some 1%Q)]
  /\ exists ranked,
       @MysqlSearchStrategy.getSearchResults sample_engine sample_mapper
         sample_ctx input_shirt_by_price table_shirts
       = List.map (fun r => (r, "USD"))
           (firstn (MysqlSearchStrategy.or_default (i_take input_shirt_by_price) 25)
              (skipn (MysqlSearchStrategy.or_default (i_skip input_shirt_by_price) 0) ranked))
       /\ (forall r, In r ranked ->
             In (raw_si r) table_shirts
             /\ @term_matches sample_engine "shirt" (raw_si r) = true
             /\ facet_filter input_shirt_by_price (raw_si r) = true
             /\ row_score r = Some (@weighted_score sample_engine "shirt" (raw_si r)))
       /\ (i_groupByProduct input_shirt_by_price <> Some true ->
           Permutation (List.map raw_si ranked)
             (List.filter (fun it => @term_matches sample_engine "shirt" it
                                     && facet_filter input_shirt_by_price it)
                          table_shirts))
       /\ (i_groupByProduct input_shirt_by_price = Some true ->
           forall it, In it table_shirts ->
             @term_matches sample_engine "shirt" it = true ->
             facet_filter input_shirt_by_price it = true ->
             exists r, In r ranked /\ productId (raw_si r) = productId it)
       /\ Sorted (ordered_by [(OrdAlias "score", DESC); (OrdPrice, DESC)]) ranked
       /\ Sorted (fun a b => (@weighted_score sample_engine "shirt" (raw_si b)
                              <= @weighted_score sample_engine "shirt" (raw_si a))%Q) ranked.
Proof.
  split; [reflexivity | split; [reflexivity | split; [vm_compute; reflexivity |]]].
  apply (@ranked_results_scored_and_ordered sample_engine sample_mapper
           sample_ctx input_shirt_by_price "shirt" table_shirts eq_refl eq_refl).
Defined.

Lemma total_count_is_unpaginated_length_witness :
  i_groupByProduct input_grouped = Some true
  /\ @MysqlSearchStrategy.getTotalCount sample_engine sample_ctx input_grouped
       table_two_products
     = size (list_to_set
               (List.map productId
                  (List.filter (fun it => @term_filter sample_engine input_grouped it
                                          && facet_filter input_grouped it)
                               table_two_products)) : gset string).
Proof.
  split; [reflexivity |].
  apply (proj1 (proj2 (proj2 (@total_count_is_unpaginated_length sample_engine sample_mapper
                                sample_ctx input_grouped table_two_products)))
           eq_refl).
Defined.

Lemma zero_take_gives_default_page_witness :
  i_take input_take_zero = Some 0
  /\ @MysqlSearchStrategy.getSearchResults sample_engine sample_mapper
       sample_ctx input_take_zero table_A_B_AB
     = List.map (fun r => (r, "USD"))
         (firstn 25
            (skipn (MysqlSearchStrategy.or_default (i_skip input_take_zero) 0)
               (@getRawMany sample_engine
                  (unpaginated (MysqlSearchStrategy.searchResultsQuery input_take_zero))
                  table_A_B_AB))).
Proof.
  split; [reflexivity |].
  apply (proj1 (@zero_take_gives_default_page sample_engine sample_mapper
                  sample_ctx input_take_zero table_A_B_AB (or_intror eq_refl))).
Defined.

Lemma soft_delete_removes_variants_in_request_language_witness :
  List.find (fun p => String.eqb (p_id p) "P1")
            (db_products (shirt_db (Some 5%Z) shirt_index_en_de))
  = Some (shirt (Some 5%Z))
  /\ deletedAt (shirt (Some 5%Z)) = Some 5%Z
  /\ let db := shirt_db (Some 5%Z) shirt_index_en_de in
     let db' := snd (@FulltextSearchService.update sample_translator
                       (ctx_of "en") (a_Product "P1") db) in
     fst (@FulltextSearchService.update sample_translator (ctx_of "en") (a_Product "P1") db)
     = Ok tt
     /\ (forall v, In v (variants_of (shirt (Some 5%Z)) db) ->
           search_index db' !! (v_id v, ctx_languageCode (ctx_of "en")) = None)
     /\ (forall vid lang,
           lang <> ctx_languageCode (ctx_of "en")
           \/ ~ In vid (List.map v_id (variants_of (shirt (Some 5%Z)) db)) ->
           search_index db' !! (vid, lang) = search_index db !! (vid, lang)).
Proof.
  split; [reflexivity | split; [reflexivity |]].
  apply (@soft_delete_removes_variants_in_request_language sample_translator
           (ctx_of "en") "P1" (shirt (Some 5%Z)) 5%Z
           (shirt_db (Some 5%Z) shirt_index_en_de) eq_refl eq_refl).
Defined.

(** C2, refuted as stated: the German record of a variant of the soft-deleted
    product survives an [update] handled in English. *)
Lemma soft_delete_keeps_other_languages :
  ~ (forall (T : Translator) ctx id p d db,
        List.find (fun p => String.eqb (p_id p) id) (db_products db) = Some p ->
        deletedAt p = Some d ->
        forall v lang, In v (variants_of p db) ->
          search_index (snd (@FulltextSearchService.update T ctx (a_Product id) db))
            !! (v_id v, lang) = None).
Proof.
  intros Hclaim.
  specialize (Hclaim sample_translator (ctx_of "en") "P1" (shirt (Some 5%Z)) 5%Z
                (shirt_db (Some 5%Z) shirt_index_en_de) eq_refl eq_refl
                (shirt_variant "V1" "RED-M" (Some 5%Z)) "de" (or_introl eq_refl)).
  vm_compute in Hclaim. discriminate.
Qed.

Lemma saved_records_carry_facet_union_witness :
  let db := jacket_db in
  let items := List.map (FulltextSearchService.new_SearchIndexItem "en") (db_variants db) in
  let it := FulltextSearchService.new_SearchIndexItem "en" jacket_blue_small in
  ((exists ctx e, saved_by (@FulltextSearchService.update sample_translator ctx e) db items)
   \/ (exists lang, saved_by (@FulltextSearchService.reindex sample_translator lang) db items))
  /\ In it items
  /\ (productVariantId it = "J2"
      /\ facetIds it = ["1"; "2"; "3"]
      /\ facetValueIds it = ["12"; "22"; "31"]
      /\ facetValueIds (FulltextSearchService.new_SearchIndexItem "en" jacket_red_large)
         = ["11"; "21"; "31"; "12"])
  /\ exists v tv,
       In v (db_variants db)
       /\ @translateDeep sample_translator v (languageCode it) = Ok tv
       /\ productVariantId it = v_id tv
       /\ productId it = p_id (product tv)
       /\ union_of (List.map (fun fv => ID_toString (facet_id (facet fv))) (v_facetValues tv))
                   (List.map (fun fv => ID_toString (facet_id (facet fv)))
                             (p_facetValues (product tv)))
                   (facetIds it)
       /\ union_of (List.map (fun fv => ID_toString (fv_id fv)) (v_facetValues tv))
                   (List.map (fun fv => ID_toString (fv_id fv)) (p_facetValues (product tv)))
                   (facetValueIds it)
       /\ (v_id tv = v_id v -> v_facetValues tv = v_facetValues v ->
           p_facetValues (product tv) = p_facetValues (product v) ->
           productVariantId it = v_id v
           /\ union_of (List.map (fun fv => ID_toString (facet_id (facet fv)))
                                 (v_facetValues v))
                       (List.map (fun fv => ID_toString (facet_id (facet fv)))
                                 (p_facetValues (product v)))
                       (facetIds it)
           /\ union_of (List.map (fun fv => ID_toString (fv_id fv)) (v_facetValues v))
                       (List.map (fun fv => ID_toString (fv_id fv))
                                 (p_facetValues (product v)))
                       (facetValueIds it)).
Proof.
  intros db items it.
  assert (Hsaved : (exists ctx e,
                       saved_by (@FulltextSearchService.update sample_translator ctx e) db items)
                   \/ (exists lang,
                          saved_by (@FulltextSearchService.reindex sample_translator lang)
                                   db items)).
  { left. exists (ctx_of "en"), (a_Product "J"). exists [], []. reflexivity. }
  assert (Hit : In it items) by (right; left; reflexivity).
  split; [exact Hsaved | split; [exact Hit | split; [repeat split |]]].
  apply (@saved_records_carry_facet_union sample_translator db items it Hsaved Hit).
Defined.

Lemma checkIndex_reindexes_only_when_empty_witness :
  let db := shirt_db None ∅ in
  let db1 := snd (@FulltextSearchService.reindex sample_translator "en" db) in
  size (rows_of_language "en" (search_index db)) = 0
  /\ reindex_runs (writes (snd (@FulltextSearchService.checkIndex sample_translator "en" db)))
     = S (reindex_runs (writes db))
  /\ size (rows_of_language "en" (search_index db1)) <> 0
  /\ @FulltextSearchService.checkIndex sample_translator "en" db1 = (Ok tt, db1).
Proof.
  intros db db1.
  destruct (@checkIndex_reindexes_only_when_empty sample_translator "en" db)
    as (Hempty & _ & Hafter).
  destruct (@checkIndex_reindexes_only_when_empty sample_translator "en" db1)
    as (_ & Hnonempty & _).
  assert (Hsize0 : size (rows_of_language "en" (search_index db)) = 0) by reflexivity.
  assert (Hsize1 : size (rows_of_language "en" (search_index db1)) <> 0)
    by (vm_compute; discriminate).
  split; [exact Hsize0 | split; [exact (proj2 (Hempty Hsize0)) | split; [exact Hsize1 |]]].
  exact (Hnonempty Hsize1).
Defined.

(** C8, refuted as stated: on a catalog with no variant, [reindex] leaves the
    index empty, and the [checkIndex] that follows runs [reindex] again. *)
Lemma reindex_then_checkIndex_reindexes_empty_catalog :
  ~ (forall (T : Translator) lang db,
        let db1 := snd (@FulltextSearchService.reindex T lang db) in
        reindex_runs (writes (snd (@FulltextSearchService.checkIndex T lang db1)))
        = reindex_runs (writes db1)).
Proof.
  intros Hclaim. specialize (Hclaim sample_translator "en" empty_db).
  vm_compute in Hclaim. discriminate.
Qed.

Lemma strategy_selection_total_or_fatal_witness :
  ~ In "oracle" ["mysql"; "mariadb"; "sqlite"; "sqljs"; "postgres"]
  /\ FulltextSearchService.constructor "oracle"
     = Err (InternalServerError "error.database-not-supported-by-default-search-plugin")
  /\ FulltextSearchService.constructor "mariadb"
     = Ok {| FulltextSearchService.searchStrategy := new_MysqlSearchStrategy |}.
Proof.
  assert (Hnot : ~ In "oracle" ["mysql"; "mariadb"; "sqlite"; "sqljs"; "postgres"]).
  { simpl. intros Hin. repeat destruct Hin as [Hin | Hin]; try discriminate; exact Hin. }
  split; [exact Hnot | split].
  - exact (proj2 (proj2 (proj2 (strategy_selection_total_or_fatal "oracle"))) Hnot).
  - exact (proj1 (strategy_selection_total_or_fatal "mariadb") (or_intror eq_refl)).
Defined.

(* ===================================================================== *)
(** * Further properties of MysqlSearchStrategy and of search             *)
(* ===================================================================== *)

Lemma NoDup_of_firstn {A} (n : nat) (l : list A) : List.NoDup l -> List.NoDup (firstn n l).
Proof.
  revert l. induction n as [| n IH]; intros l Hnd; simpl; [constructor |].
  destruct l as [| x l]; [constructor |].
  inversion Hnd as [| ? ? Hx Hl]; subst. constructor; [| now apply IH].
  intros Hin. apply In_of_firstn in Hin. contradiction.
Qed.

Lemma NoDup_of_skipn {A} (n : nat) (l : list A) : List.NoDup l -> List.NoDup (skipn n l).
Proof.
  revert l. induction n as [| n IH]; intros l Hnd; simpl; [exact Hnd |].
  destruct l as [| x l]; [constructor |].
  inversion Hnd as [| ? ? Hx Hl]; subst. now apply IH.
Qed.

Lemma sort_rows_no_keys rows : sort_rows [] rows = rows.
Proof. induction rows as [| r rest IH]; simpl; [reflexivity |]. rewrite IH. now destruct rest. Qed.

Section StrategyExtras.
Context `{FulltextEngine} `{SearchResultMapper}.
Import MysqlSearchStrategy.


Lemma getRawMany_unpaginated qb table :
  getRawMany (unpaginated qb) table = sort_rows (qb_orderBys qb) (grouped_rows qb table).
Proof. reflexivity. Qed.

Lemma getSearchResults_page ctx input table :
  getSearchResults ctx input table
  = List.map (fun r => mapToSearchResult r (currencyCode (channel ctx)))
      (firstn (or_default (i_take input) 25)
         (skipn (or_default (i_skip input) 0)
            (getRawMany (unpaginated (searchResultsQuery input)) table))).
Proof.
  destruct (searchResultsQuery_fields input) as (_ & _ & _ & _ & HT & HK).
  unfold getSearchResults. now rewrite getRawMany_paginated, HT, HK.
Qed.

(** Queries that agree on everything but the text of the WHERE clause, and
    whose WHERE clauses accept the same records, return the same rows. *)
Lemma getRawMany_ext qb qb' table :
  qb_selects qb = qb_selects qb' -> qb_groupBy qb = qb_groupBy qb' ->
  qb_orderBys qb = qb_orderBys qb' -> qb_take qb = qb_take qb' -> qb_skip qb = qb_skip qb' ->
  (forall it, eval_where (qb_where qb) it = eval_where (qb_where qb') it) ->
  getRawMany qb table = getRawMany qb' table.
Proof.
  intros HS HG HO HT HK HW. unfold getRawMany, grouped_rows, filtered_rows.
  rewrite HS, HG, HO, HT, HK. now rewrite (filter_ext _ _ HW).
Qed.

(** Whatever two inputs agree on term, sort, grouping and page, their results
    are the same as soon as their facet filters accept the same records. *)
Lemma same_search_when_same_filter ctx input input' table :
  i_term input = i_term input' -> i_sort input = i_sort input' ->
  i_groupByProduct input = i_groupByProduct input' ->
  i_take input = i_take input' -> i_skip input = i_skip input' ->
  (forall it, facet_filter input it = facet_filter input' it) ->
  getSearchResults ctx input table = getSearchResults ctx input' table
  /\ getTotalCount ctx input table = getTotalCount ctx input' table.
Proof.
  intros Ht Hs Hg Hk Hp Hf.
  destruct (searchResultsQuery_fields input) as (S1 & W1 & G1 & O1 & T1 & K1).
  destruct (searchResultsQuery_fields input') as (S2 & W2 & G2 & O2 & T2 & K2).
  destruct (applyTermAndFilters_fields input) as (S1' & G1' & _).
  destruct (applyTermAndFilters_fields input') as (S2' & G2' & _).
  assert (HW : forall it,
             eval_where (qb_where (applyTermAndFilters createQueryBuilder input)) it
             = eval_where (qb_where (applyTermAndFilters createQueryBuilder input')) it).
  { intros it. rewrite !applyTermAndFilters_where, Hf. unfold term_filter. now rewrite Ht. }
  assert (HSel : term_selects input = term_selects input')
    by (unfold term_selects; now rewrite Ht).
  split.
  - unfold getSearchResults. f_equal. apply getRawMany_ext.
    + now rewrite S1, S2, S1', S2'.
    + now rewrite G1, G2, G1', G2', Hg.
    + now rewrite O1, O2, Ht, Hs.
    + now rewrite T1, T2, Hk.
    + now rewrite K1, K2, Hp.
    + intros it. now rewrite W1, W2.
  - rewrite !getTotalCount_grouped. unfold grouped_rows, filtered_rows.
    rewrite S1', S2', G1', G2', HSel, Hg. now rewrite (filter_ext _ _ HW).
Qed.


(** X3. With [groupByProduct] set, no two rows of a page belong to the same
    product. *)
Theorem grouped_results_have_distinct_products ctx input table
    (Hgroup : i_groupByProduct input = Some true) :
  exists rows,
    getSearchResults ctx input table
    = List.map (fun r => mapToSearchResult r (currencyCode (channel ctx))) rows
    /\ List.NoDup (List.map (fun r => productId (raw_si r)) rows).
Proof.
  eexists. split; [apply getSearchResults_page |].
  rewrite <- List.firstn_map, <- List.skipn_map.
  apply NoDup_of_firstn, NoDup_of_skipn.
  rewrite getRawMany_unpaginated.
  apply (Permutation_NoDup
           (Permutation_map _ (sort_rows_perm _ (grouped_rows (searchResultsQuery input) table)))).
  unfold grouped_rows.
  destruct (searchResultsQuery_fields input) as (_ & _ & -> & _).
  destruct (applyTermAndFilters_fields input) as (_ & -> & _). rewrite Hgroup.
  apply group_rows_NoDup.
Qed.

(** X4. Without grouping, the unpaginated result of a search whose term has
    three characters or more holds exactly the records of the table whose
    SKU contains the term or whose name, variant name or description match
    it, and that carry every listed facet id. *)
Theorem ranked_search_returns_exactly_the_matches input t table it
    (Hterm : i_term input = Some t) (Hlen : 3 <= String.length t)
    (Hflat : i_groupByProduct input <> Some true) :
  In it (List.map raw_si (getRawMany (unpaginated (searchResultsQuery input)) table))
  <-> In it table /\ term_matches t it = true /\ facet_filter input it = true.
Proof.
  apply term_guard_length in Hlen.
  destruct (searchResultsQuery_fields input) as (HS & HW & HG & _).
  destruct (applyTermAndFilters_fields input) as (_ & HG' & _).
  assert (Hnone : qb_groupBy (searchResultsQuery input) = None).
  { rewrite HG, HG'. destruct (i_groupByProduct input) as [[|] |]; congruence. }
  assert (Hfilter : forall x, eval_where (qb_where (searchResultsQuery input)) x
                              = term_matches t x && facet_filter input x).
  { intros x. rewrite HW, applyTermAndFilters_where. unfold term_filter.
    now rewrite Hterm, Hlen. }
  rewrite getRawMany_unpaginated, in_map_iff. split.
  - intros (r & <- & Hr). apply sort_rows_In in Hr. unfold grouped_rows in Hr.
    rewrite Hnone in Hr. apply filtered_rows_In in Hr. destruct Hr as (x & Hx & Hw & ->).
    rewrite Hfilter in Hw. apply andb_true_iff in Hw. simpl. tauto.
  - intros (Hin & Hm & Hf). exists (eval_selects (qb_selects (searchResultsQuery input)) it).
    split; [reflexivity |]. apply sort_rows_In. unfold grouped_rows. rewrite Hnone.
    apply filtered_rows_In. exists it. rewrite Hfilter, Hm, Hf. tauto.
Qed.

(** X5. A term shorter than two characters (the empty term included) is
    ignored: results and total are those of the same search without a
    term. *)
Theorem short_term_is_ignored ctx input t table
    (Hterm : i_term input = Some t) (Hlen : String.length t < 2) :
  getSearchResults ctx input table = getSearchResults ctx (without_term input) table
  /\ getTotalCount ctx input table = getTotalCount ctx (without_term input) table.
Proof.
  assert (Hguard : term_guard (Some t) = false).
  { destruct (term_guard (Some t)) eqn:Hg; [| reflexivity].
    apply term_guard_length in Hg. lia. }
  assert (Hq : applyTermAndFilters createQueryBuilder input
               = applyTermAndFilters createQueryBuilder (without_term input)).
  { unfold applyTermAndFilters. rewrite Hterm, Hguard. reflexivity. }
  split.
  - unfold getSearchResults, searchResultsQuery. rewrite Hq, Hterm, Hguard. reflexivity.
  - unfold getTotalCount. now rewrite Hq.
Qed.

Lemma carries_all_same_ids ids ids' it :
  (forall x, In x ids <-> In x ids') -> carries_all ids it = carries_all ids' it.
Proof.
  intros Hsame. apply eq_true_iff_eq. rewrite !carries_all_In. split; intros Hall id Hid.
  - apply Hall, Hsame, Hid.
  - apply Hall, Hsame, Hid.
Qed.

(** X6. The facet filter is a set: two id lists with the same elements, in
    any order and with any repetitions, give the same results and total; and
    an empty list filters nothing, like an absent one. *)
Theorem facet_filter_is_a_set ctx input ids ids' table
    (Hsame : forall x, In x ids <-> In x ids') :
  (getSearchResults ctx (with_facetIds input (Some ids)) table
   = getSearchResults ctx (with_facetIds input (Some ids')) table
   /\ getTotalCount ctx (with_facetIds input (Some ids)) table
      = getTotalCount ctx (with_facetIds input (Some ids')) table)
  /\ (getSearchResults ctx (with_facetIds input (Some [])) table
      = getSearchResults ctx (with_facetIds input None) table
      /\ getTotalCount ctx (with_facetIds input (Some [])) table
         = getTotalCount ctx (with_facetIds input None) table).
Proof.
  split; apply same_search_when_same_filter; try reflexivity.
  - intros it. unfold facet_filter. simpl. now apply carries_all_same_ids.
Qed.

(** X7. Without a term that triggers ranking, a requested price sort orders
    the page by price in the requested direction (after the name, when a
    name sort is requested too). *)
Theorem unranked_results_follow_requested_sort ctx input table s
    (Hunranked : term_guard (i_term input) = false)
    (Hsort : i_sort input = Some s) :
  exists rows,
    getSearchResults ctx input table
    = List.map (fun r => mapToSearchResult r (currencyCode (channel ctx))) rows
    /\ Sorted (ordered_by (sort_keys (Some s))) rows
    /\ (forall d, sort_name s = None -> sort_price s = Some d ->
          Sorted (fun a b => match d with
                             | ASC => (price (raw_si a) <= price (raw_si b))%Z
                             | DESC => (price (raw_si b) <= price (raw_si a))%Z
                             end) rows).
Proof.
  exists (getRawMany (searchResultsQuery input) table).
  assert (Hsorted : Sorted (ordered_by (sort_keys (Some s)))
                           (getRawMany (searchResultsQuery input) table)).
  { pose proof (getRawMany_sorted (searchResultsQuery input) table) as Hs.
    destruct (searchResultsQuery_fields input) as (_ & _ & _ & HO & _).
    now rewrite HO, Hunranked, Hsort in Hs. }
  split; [reflexivity | split; [exact Hsorted |]].
  intros d Hname Hprice. eapply Sorted_weaken; [| exact Hsorted].
  intros a b. unfold ordered_by, order_leb, sort_keys. rewrite Hname, Hprice. simpl.
  destruct d; simpl;
    destruct (Z.compare_spec (price (raw_si a)) (price (raw_si b)));
    simpl; intros; first [lia | discriminate].
Qed.
End StrategyExtras.

(** ** Splitting what GROUP_CONCAT joined *)

Lemma split_comma_not_nil (s : string) : split_comma s <> [].
Proof.
  induction s as [| c rest IH]; simpl; [discriminate |].
  destruct (Ascii.eqb c ","%char); [discriminate |].
  destruct (split_comma rest); discriminate.
Qed.

(** Splitting distributes over a comma. *)
Lemma split_comma_app (a b : string) :
  split_comma (a ++ String ","%char b) = split_comma a ++ split_comma b.
Proof.
  induction a as [| c a IH]; simpl; [reflexivity |].
  destruct (Ascii.eqb c ","%char); [now rewrite IH |].
  rewrite IH. pose proof (split_comma_not_nil a) as Hne.
  destruct (split_comma a) as [| piece pieces]; [contradiction | reflexivity].
Qed.

Lemma split_comma_free (s : string) : comma_free s = true -> split_comma s = [s].
Proof.
  induction s as [| c rest IH]; simpl; [reflexivity |].
  intros Hfree. apply andb_true_iff in Hfree. destruct Hfree as [Hc Hrest].
  apply negb_true_iff in Hc. rewrite Hc, (IH Hrest). reflexivity.
Qed.

(** Round trip of a [simple-array] column: splitting the stored text gives
    the values back. *)
Lemma split_simple_array (values : list string) :
  values <> [] -> (forall v, In v values -> comma_free v = true) ->
  split_comma (simple_array values) = values.
Proof.
  unfold simple_array. induction values as [| v rest IH]; [congruence |].
  intros _ Hfree. destruct rest as [| w rest'].
  - simpl. apply split_comma_free, Hfree. now left.
  - change (String.concat "," (v :: w :: rest'))
      with (v ++ String ","%char (String.concat "," (w :: rest')))%string.
    rewrite split_comma_app, split_comma_free by (apply Hfree; now left).
    rewrite IH; [reflexivity | discriminate |].
    intros x Hx. apply Hfree. now right.
Qed.

Lemma split_simple_array_non_empty (values : list string) :
  (forall v, In v values -> comma_free v = true) ->
  List.filter non_empty (split_comma (simple_array values)) = List.filter non_empty values.
Proof.
  intros Hfree. destruct values as [| v rest]; [reflexivity |].
  now rewrite split_simple_array.
Qed.

(** The non-empty pieces of the aggregated text are the non-empty ids of the
    rows, in order. *)
Lemma split_aggregated (rows : list SearchIndexItem) :
  (forall it, In it rows -> forall id, In id (facetValueIds it) -> comma_free id = true) ->
  List.filter non_empty (split_comma (aggregated rows))
  = List.filter non_empty (flat_map facetValueIds rows).
Proof.
  unfold aggregated, GROUP_CONCAT.
  induction rows as [| it rest IH]; intros Hfree; [reflexivity |].
  destruct rest as [| it' rest'].
  - simpl. rewrite app_nil_r. apply split_simple_array_non_empty. apply Hfree. now left.
  - change (String.concat "," (List.map (fun it => simple_array (facetValueIds it))
                                      (it :: it' :: rest')))
      with (simple_array (facetValueIds it)
            ++ String ","%char
                 (String.concat "," (List.map (fun it => simple_array (facetValueIds it))
                                            (it' :: rest'))))%string.
    rewrite split_comma_app, List.filter_app.
    rewrite split_simple_array_non_empty by (apply Hfree; now left).
    change (flat_map facetValueIds (it :: it' :: rest'))
      with (facetValueIds it ++ flat_map facetValueIds (it' :: rest')).
    rewrite List.filter_app. f_equal. apply IH.
    intros x Hx. apply Hfree. now right.
Qed.

Section FacetValueIds.
Context `{FulltextEngine}.
Import MysqlSearchStrategy.

Lemma matching_where input table :
  List.filter (eval_where (qb_where (applyTermAndFilters createQueryBuilder input))) table
  = matching input table.
Proof. apply filter_ext. intros it. apply applyTermAndFilters_where. Qed.

(** X8. Without grouping, and with ids free of commas, [getFacetValueIds]
    returns each non-empty facet-value id carried by a record that passes
    the term filter and the facet filter, once, and nothing else; when no
    record passes, it returns the empty list. *)
Theorem getFacetValueIds_collects_matching_ids ctx input table
    (Hflat : i_groupByProduct input <> Some true)
    (Hfree : forall it, In it table ->
               forall id, In id (facetValueIds it) -> comma_free id = true) :
  Mysql_getFacetValueIds ctx input table
  = unique (List.filter non_empty (flat_map facetValueIds (matching input table)))
  /\ List.NoDup (Mysql_getFacetValueIds ctx input table)
  /\ (forall id, In id (Mysql_getFacetValueIds ctx input table)
                 <-> id <> EmptyString
                     /\ exists it, In it (matching input table) /\ In id (facetValueIds it))
  /\ (matching input table = [] -> Mysql_getFacetValueIds ctx input table = []).
Proof.
  assert (Heq : Mysql_getFacetValueIds ctx input table
                = unique (List.filter non_empty
                            (flat_map facetValueIds (matching input table)))).
  { unfold Mysql_getFacetValueIds, facetValues_getRawOne.
    destruct (applyTermAndFilters_fields input) as (_ & -> & _).
    replace (match i_groupByProduct input with
             | Some true => Some GrpProductId
             | _ => None
             end) with (@None GroupColumn)
      by (destruct (i_groupByProduct input) as [[|] |]; congruence).
    rewrite matching_where.
    change (unique (List.filter non_empty (split_comma (aggregated (matching input table))))
            = unique (List.filter non_empty
                        (flat_map facetValueIds (matching input table)))).
    rewrite split_aggregated; [reflexivity |].
    intros it Hit. apply Hfree. apply filter_In in Hit. tauto. }
  split; [exact Heq | split; [| split]].
  - rewrite Heq. apply unique_NoDup.
  - intros id. rewrite Heq, unique_In, filter_In, in_flat_map.
    unfold non_empty. rewrite negb_true_iff, String.eqb_neq. tauto.
  - intros Hnone. rewrite Heq, Hnone. reflexivity.
Qed.

(** X9. With [groupByProduct] set, [getFacetValueIds] reads the first result
    row only: every id it returns is carried by a matching record of one and
    the same product. *)
Theorem grouped_getFacetValueIds_covers_one_product ctx input table
    (Hgroup : i_groupByProduct input = Some true)
    (Hfree : forall it, In it table ->
               forall id, In id (facetValueIds it) -> comma_free id = true) :
  exists pid,
    forall id, In id (Mysql_getFacetValueIds ctx input table) ->
      exists it, In it (matching input table) /\ productId it = pid
                 /\ In id (facetValueIds it).
Proof.
  unfold Mysql_getFacetValueIds, facetValues_getRawOne.
  destruct (applyTermAndFilters_fields input) as (_ & -> & _). rewrite Hgroup.
  rewrite matching_where.
  destruct (matching input table) as [| first rest] eqn:Hm.
  - exists EmptyString. intros id [].
  - exists (productId first). intros id Hid.
    set (group := List.filter (fun it => String.eqb (productId it) (productId first))
                              (first :: rest)) in Hid.
    change (In id (unique (List.filter non_empty (split_comma (aggregated group))))) in Hid.
    rewrite split_aggregated in Hid.
    + apply unique_In, filter_In in Hid. destruct Hid as [Hid _].
      apply in_flat_map in Hid. destruct Hid as (it & Hit & Hin).
      apply filter_In in Hit. destruct Hit as [Hit Hpid].
      apply String.eqb_eq in Hpid. exists it. tauto.
    + intros it Hit. apply filter_In in Hit. apply Hfree.
      assert (Hin : In it (matching input table)) by (rewrite Hm; tauto).
      apply filter_In in Hin. tauto.
Qed.
End FacetValueIds.

(* ===================================================================== *)
(** * Further properties of FulltextSearchService                         *)
(* ===================================================================== *)

Lemma map_result_forward {A B} (f : A -> Result B) (l : list A) (ys : list B) :
  map_result f l = Ok ys -> forall x, In x l -> exists y, In y ys /\ f x = Ok y.
Proof.
  revert ys. induction l as [| a rest IH]; simpl; intros ys Hok x Hx; [destruct Hx |].
  destruct (f a) as [y0 | e] eqn:Hfa; [| discriminate].
  destruct (map_result f rest) as [ys0 | e]; [| discriminate].
  injection Hok as <-. destruct Hx as [<- | Hx].
  - exists y0. split; [now left | exact Hfa].
  - destruct (IH ys0 eq_refl x Hx) as (y & Hy & Hf). exists y. split; [now right | exact Hf].
Qed.

Lemma map_result_Err {A B} (f : A -> Result B) (l : list A) (e : Error) :
  map_result f l = Err e -> exists x, In x l /\ f x = Err e.
Proof.
  induction l as [| a rest IH]; simpl; [discriminate |].
  destruct (f a) as [y0 | e0] eqn:Hfa.
  - destruct (map_result f rest) as [ys0 | e1]; [discriminate |].
    intros Herr. injection Herr as ->. destruct (IH eq_refl) as (x & Hx & Hf).
    exists x. split; [now right | exact Hf].
  - intros Herr. injection Herr as ->. exists a. split; [now left | exact Hfa].
Qed.

(** Where a record found after [save] comes from. *)
Lemma upsert_all_lookup_Some (items : list SearchIndexItem)
    (m : gmap (string * string) SearchIndexItem) (k : string * string) (it : SearchIndexItem) :
  upsert_all items m !! k = Some it ->
  (In it items /\ item_key it = k) \/ m !! k = Some it.
Proof.
  revert m. induction items as [| a rest IH]; intros m Hk; [now right |].
  rewrite upsert_all_cons in Hk. destruct (IH _ Hk) as [[Hin Hkey] | Hm].
  - left. split; [now right | exact Hkey].
  - destruct (decide (item_key a = k)) as [Heq | Hne].
    + rewrite <- Heq, lookup_insert_eq in Hm. injection Hm as <-. left. split; [now left | exact Heq].
    + rewrite lookup_insert_ne in Hm by exact Hne. now right.
Qed.

Lemma rows_not_of_language_other (lang : string)
    (m : gmap (string * string) SearchIndexItem) (vid lang' : string) :
  lang' <> lang -> rows_not_of_language lang m !! (vid, lang') = m !! (vid, lang').
Proof.
  intros Hne. unfold rows_not_of_language. apply option_eq. intros it.
  rewrite map_lookup_filter_Some. simpl. tauto.
Qed.

Lemma rows_not_of_language_same (lang : string)
    (m : gmap (string * string) SearchIndexItem) (vid : string) :
  rows_not_of_language lang m !! (vid, lang) = None.
Proof.
  unfold rows_not_of_language. apply eq_None_not_Some. intros [it Hit].
  apply map_lookup_filter_Some in Hit. simpl in Hit. tauto.
Qed.

Lemma rows_of_language_insert_size (lang : string)
    (m : gmap (string * string) SearchIndexItem) (k : string * string) (it : SearchIndexItem) :
  size (rows_of_language lang (<[k := it]> m)) <= S (size (rows_of_language lang m)).
Proof.
  unfold rows_of_language. rewrite map_filter_insert. case_decide.
  - rewrite map_size_insert. destruct (filter _ m !! k); simpl; lia.
  - etransitivity; [| apply Nat.le_succ_diag_r].
    apply map_subseteq_size, map_filter_subseteq_mono, delete_subseteq.
Qed.

Lemma rows_of_language_upsert_size (lang : string) (items : list SearchIndexItem)
    (m : gmap (string * string) SearchIndexItem) :
  size (rows_of_language lang (upsert_all items m))
  <= size (rows_of_language lang m) + List.length items.
Proof.
  revert m. induction items as [| a rest IH]; intros m; [simpl; lia |].
  rewrite upsert_all_cons. etransitivity; [apply IH |].
  pose proof (rows_of_language_insert_size lang m (item_key a) a). simpl. lia.
Qed.

Lemma rows_of_not_of_language (lang : string) (m : gmap (string * string) SearchIndexItem) :
  size (rows_of_language lang (rows_not_of_language lang m)) = 0.
Proof.
  apply map_size_empty_iff, map_empty. intros [vid l].
  unfold rows_of_language. apply eq_None_not_Some. intros [it Hit].
  apply map_lookup_filter_Some in Hit. destruct Hit as [Hit Hl]. simpl in Hl. subst l.
  now rewrite rows_not_of_language_same in Hit.
Qed.

Section ServiceExtras.
Context `{Translator}.
Import FulltextSearchService.

Lemma saved_keys_in_language (lang : string) (tvs : list ProductVariant)
    (k : string * string) :
  In k (List.map item_key (List.map (new_SearchIndexItem lang) tvs)) -> snd k = lang.
Proof.
  rewrite map_map, in_map_iff. intros (tv & <- & _). reflexivity.
Qed.

(** The second half of [update], run: a failed translation leaves the
    database as it is; otherwise the records are saved and then the keys are
    deleted. *)
Lemma update_apply_index ctx uv rv db :
  match map_result (fun v => translateDeep v (ctx_languageCode ctx)) uv with
  | Err e => update_apply ctx uv rv db = (Err e, db)
  | Ok tvs =>
      fst (update_apply ctx uv rv db) = Ok tt
      /\ same_catalog db (snd (update_apply ctx uv rv db))
      /\ search_index (snd (update_apply ctx uv rv db))
         = delete_all (List.map (fun id => (id, ctx_languageCode ctx)) rv)
             (upsert_all (List.map (new_SearchIndexItem (ctx_languageCode ctx)) tvs)
                         (search_index db))
  end.
Proof.
  destruct uv as [| v rest].
  - simpl. destruct rv; repeat split.
  - destruct (map_result _ (v :: rest)) as [tvs | e] eqn:Hmap.
    + unfold update_apply, bind. rewrite saveSearchIndexItems_run, Hmap.
      destruct rv; repeat split.
    + unfold update_apply, bind. now rewrite saveSearchIndexItems_run, Hmap.
Qed.

Lemma update_run ctx e db :
  exists uv rv,
    (forall v, In v uv -> In v (db_variants db))
    /\ update_collect e db = (Ok (uv, rv), db)
    /\ update ctx e db = update_apply ctx uv rv db.
Proof.
  destruct (update_collect_spec e db) as (uv & rv & _ & Hsub & Hcollect).
  exists uv, rv. split; [exact Hsub |].
  pose proof (Hcollect db (same_catalog_refl db)) as Hc. split; [exact Hc |].
  unfold update, bind. now rewrite Hc.
Qed.

(** X10. [update] never touches a record of another language than the one of
    the request, whatever the notification. *)
Theorem update_leaves_other_languages ctx e db vid lang
    (Hother : lang <> ctx_languageCode ctx) :
  search_index (snd (update ctx e db)) !! (vid, lang) = search_index db !! (vid, lang).
Proof.
  destruct (update_run ctx e db) as (uv & rv & _ & _ & ->).
  pose proof (update_apply_index ctx uv rv db) as Hrun.
  destruct (map_result _ uv) as [tvs | err]; [| now rewrite Hrun].
  destruct Hrun as (_ & _ & ->). rewrite delete_all_lookup.
  destruct (key_in_dec _ _) as [Hin | _].
  - apply in_map_iff in Hin. destruct Hin as (id & Heq & _). congruence.
  - apply upsert_all_lookup_other. intros Hin.
    apply saved_keys_in_language in Hin. simpl in Hin. congruence.
Qed.

(** X11. When [update] throws, nothing has been written: the index and the
    write log are as before, and the error is the one [translateDeep] threw
    for a variant of the catalog. *)
Theorem failed_update_writes_nothing ctx e db err
    (Hfailed : fst (update ctx e db) = Err err) :
  snd (update ctx e db) = db
  /\ exists v, In v (db_variants db) /\ translateDeep v (ctx_languageCode ctx) = Err err.
Proof.
  destruct (update_run ctx e db) as (uv & rv & Hsub & _ & Hupd). rewrite Hupd in *.
  pose proof (update_apply_index ctx uv rv db) as Hrun.
  destruct (map_result _ uv) as [tvs | err'] eqn:Hmap.
  - destruct Hrun as (Hok & _). congruence.
  - rewrite Hrun in *. simpl in Hfailed. injection Hfailed as ->. split; [reflexivity |].
    destruct (map_result_Err _ _ _ Hmap) as (v & Hv & Hf). exists v. auto.
Qed.

Lemma variant_update_run ctx id v tv db :
  List.find (fun v => String.eqb (v_id v) id) (db_variants db) = Some v ->
  translateDeep v (ctx_languageCode ctx) = Ok tv ->
  fst (update ctx (a_ProductVariant id) db) = Ok tt
  /\ search_index (snd (update ctx (a_ProductVariant id) db))
     = <[(v_id tv, ctx_languageCode ctx) := new_SearchIndexItem (ctx_languageCode ctx) tv]>
         (search_index db)
  /\ writes (snd (update ctx (a_ProductVariant id) db))
     = writes db ++ [OpSave [new_SearchIndexItem (ctx_languageCode ctx) tv]].
Proof.
  intros Hfind Htranslated.
  unfold update, update_collect, bind, ProductVariant_findOne, read. rewrite Hfind. simpl.
  unfold update_apply, bind. rewrite saveSearchIndexItems_run. simpl. rewrite Htranslated.
  repeat split.
Qed.

(** X12. A notification for a variant that exists and translates stores the
    record built from its translation under (variant id, request language),
    replacing what was there, and changes no other record; the product's
    [deletedAt] is not looked at. *)
Theorem variant_update_upserts_its_record ctx id v tv db
    (Hfind : List.find (fun v => String.eqb (v_id v) id) (db_variants db) = Some v)
    (Htranslated : translateDeep v (ctx_languageCode ctx) = Ok tv) :
  fst (update ctx (a_ProductVariant id) db) = Ok tt
  /\ search_index (snd (update ctx (a_ProductVariant id) db))
     = <[(v_id tv, ctx_languageCode ctx) := new_SearchIndexItem (ctx_languageCode ctx) tv]>
         (search_index db)
  /\ writes (snd (update ctx (a_ProductVariant id) db))
     = writes db ++ [OpSave [new_SearchIndexItem (ctx_languageCode ctx) tv]].
Proof. exact (variant_update_run ctx id v tv db Hfind Htranslated). Qed.

(** X13. A notification for a product or a variant that is not in the
    catalog changes nothing and does not fail. *)
Theorem update_for_missing_entity_is_noop ctx id db :
  (List.find (fun p => String.eqb (p_id p) id) (db_products db) = None ->
     update ctx (a_Product id) db = (Ok tt, db))
  /\ (List.find (fun v => String.eqb (v_id v) id) (db_variants db) = None ->
        update ctx (a_ProductVariant id) db = (Ok tt, db)).
Proof.
  split; intros Hfind.
  - unfold update, update_collect, bind, Product_findOne, read. now rewrite Hfind.
  - unfold update, update_collect, bind, ProductVariant_findOne, read. now rewrite Hfind.
Qed.

(** X14. A notification for a product that is not soft-deleted, all of whose
    variants translate, leaves a record under (variant id, request language)
    for every variant of the product, and changes no record under any other
    key. *)
Theorem live_product_update_indexes_every_variant ctx id p tvs db
    (Hfind : List.find (fun p => String.eqb (p_id p) id) (db_products db) = Some p)
    (Hlive : deletedAt p = None)
    (Htranslated :
       map_result (fun v => translateDeep v (ctx_languageCode ctx))
         (List.filter (fun v => existsb (String.eqb (v_id v))
                                        (List.map v_id (variants_of p db)))
                      (db_variants db))
       = Ok tvs) :
  let db' := snd (update ctx (a_Product id) db) in
  fst (update ctx (a_Product id) db) = Ok tt
  /\ (forall v, In v (variants_of p db) ->
        exists tv, translateDeep v (ctx_languageCode ctx) = Ok tv
                   /\ is_Some (search_index db' !! (v_id tv, ctx_languageCode ctx)))
  /\ (forall k, ~ In k (List.map (fun tv => (v_id tv, ctx_languageCode ctx)) tvs) ->
        search_index db' !! k = search_index db !! k).
Proof.
  intros db'. subst db'.
  set (uv := List.filter _ (db_variants db)) in Htranslated.
  assert (Hupd : update ctx (a_Product id) db = update_apply ctx uv [] db).
  { unfold update, update_collect, bind, Product_findOne, ProductVariant_findByIds, read.
    rewrite Hfind. simpl. now rewrite Hlive. }
  rewrite Hupd. pose proof (update_apply_index ctx uv [] db) as Hrun.
  rewrite Htranslated in Hrun. destruct Hrun as (Hok & _ & Hidx).
  simpl in Hidx. change (delete_all [] ?m) with m in Hidx. rewrite Hidx.
  split; [exact Hok | split].
  - intros v Hv.
    assert (Huv : In v uv).
    { apply filter_In. split.
      - unfold variants_of in Hv. apply filter_In in Hv. tauto.
      - apply existsb_eqb_In. now apply in_map. }
    destruct (map_result_forward _ _ _ Htranslated v Huv) as (tv & Htv & Hf).
    exists tv. split; [exact Hf |]. apply upsert_all_saved_is_Some.
    rewrite map_map. apply in_map_iff. exists tv. split; [reflexivity | exact Htv].
  - intros k Hk. apply upsert_all_lookup_other. now rewrite map_map.
Qed.

(** X15. [reindex] never touches a record of another language, whether it
    succeeds or throws. *)
Theorem reindex_leaves_other_languages lang db vid lang'
    (Hother : lang' <> lang) :
  search_index (snd (reindex lang db)) !! (vid, lang') = search_index db !! (vid, lang').
Proof.
  pose proof (reindex_run lang db) as Hrun. simpl in Hrun. rewrite Hrun.
  destruct (map_result _ _) as [tvs | err]; simpl.
  - rewrite upsert_all_lookup_other; [now apply rows_not_of_language_other |].
    intros Hin. apply saved_keys_in_language in Hin. simpl in Hin. congruence.
  - now apply rows_not_of_language_other.
Qed.

(** X16. After a successful [reindex] the records of the language are
    exactly those of the variants whose product is not soft-deleted: each
    record is built from the translation of such a variant, each such variant
    has a record, the response counts these variants, and the index holds at
    most that many records for the language. *)
Theorem reindex_rebuilds_language_from_live_variants lang db r db1
    (Hdone : reindex lang db = (Ok r, db1)) :
  (success r = true
   /\ indexedItemCount r = List.length (List.filter live (db_variants db)))
  /\ (forall vid it, search_index db1 !! (vid, lang) = Some it ->
        exists v tv, In v (db_variants db) /\ live v = true
                     /\ translateDeep v lang = Ok tv
                     /\ it = new_SearchIndexItem lang tv /\ v_id tv = vid)
  /\ (forall v, In v (db_variants db) -> live v = true ->
        exists tv, translateDeep v lang = Ok tv
                   /\ is_Some (search_index db1 !! (v_id tv, lang)))
  /\ size (rows_of_language lang (search_index db1)) <= indexedItemCount r.
Proof.
  pose proof (reindex_run lang db) as Hrun. simpl in Hrun. rewrite Hdone in Hrun.
  change (fun v : ProductVariant =>
            match deletedAt (product v) with Some _ => false | None => true end)
    with live in Hrun.
  destruct (map_result (fun v => translateDeep v lang) (List.filter live (db_variants db)))
    as [tvs | err] eqn:Hmap; [| discriminate].
  injection Hrun as -> ->. simpl.
  destruct (map_result_Ok _ _ _ Hmap) as [Hlen Hback].
  split; [split; reflexivity | split; [| split]].
  - intros vid it Hit. apply upsert_all_lookup_Some in Hit.
    destruct Hit as [[Hin Hkey] | Hold]; [| now rewrite rows_not_of_language_same in Hold].
    apply in_map_iff in Hin. destruct Hin as (tv & <- & Htv).
    destruct (Hback tv Htv) as (v & Hv & Hf). apply filter_In in Hv.
    exists v, tv. injection Hkey as Hid. tauto.
  - intros v Hv Hl.
    destruct (map_result_forward _ _ _ Hmap v) as (tv & Htv & Hf); [apply filter_In; tauto |].
    exists tv. split; [exact Hf |]. apply upsert_all_saved_is_Some.
    rewrite map_map. apply in_map_iff. exists tv. split; [reflexivity | exact Htv].
  - etransitivity; [apply rows_of_language_upsert_size |].
    rewrite rows_of_not_of_language, length_map, Hlen. lia.
Qed.

(** X17. When [reindex] throws, the records of the language are already
    gone: the language is left without any record, the only write issued is
    the delete, and the error is the one [translateDeep] threw for a variant
    whose product is not soft-deleted. *)
Theorem failed_reindex_leaves_language_empty lang db err db1
    (Hfailed : reindex lang db = (Err err, db1)) :
  (forall vid, search_index db1 !! (vid, lang) = None)
  /\ writes db1 = writes db ++ [OpDeleteLanguage lang]
  /\ exists v, In v (db_variants db) /\ live v = true /\ translateDeep v lang = Err err.
Proof.
  pose proof (reindex_run lang db) as Hrun. simpl in Hrun. rewrite Hfailed in Hrun.
  change (fun v : ProductVariant =>
            match deletedAt (product v) with Some _ => false | None => true end)
    with live in Hrun.
  destruct (map_result (fun v => translateDeep v lang) (List.filter live (db_variants db)))
    as [tvs | err'] eqn:Hmap; [discriminate |].
  injection Hrun as -> ->. simpl. split; [| split; [reflexivity |]].
  - intros vid. apply rows_not_of_language_same.
  - destruct (map_result_Err _ _ _ Hmap) as (v & Hv & Hf). apply filter_In in Hv.
    exists v. tauto.
Qed.

(** X18. [reindex] is idempotent on the index: with the catalog unchanged,
    a second run for the same language leaves the index as the first left
    it. *)
Theorem reindex_is_idempotent lang db :
  search_index (snd (reindex lang (snd (reindex lang db))))
  = search_index (snd (reindex lang db)).
Proof.
  pose proof (reindex_run lang db) as Hrun. simpl in Hrun.
  pose proof (reindex_run lang (snd (reindex lang db))) as Hrun2. simpl in Hrun2.
  rewrite Hrun2. clear Hrun2. rewrite Hrun. clear Hrun.
  destruct (map_result _ (List.filter _ (db_variants db))) as [tvs | err] eqn:Hmap;
    simpl; rewrite Hmap; simpl.
  - f_equal. apply map_eq. intros [vid l]. destruct (decide (l = lang)) as [-> | Hne].
    + now rewrite !rows_not_of_language_same.
    + rewrite !rows_not_of_language_other by exact Hne.
      rewrite upsert_all_lookup_other; [now apply rows_not_of_language_other |].
      intros Hin. apply saved_keys_in_language in Hin. simpl in Hin. congruence.
  - apply map_eq. intros [vid l]. destruct (decide (l = lang)) as [-> | Hne].
    + now rewrite !rows_not_of_language_same.
    + now rewrite !rows_not_of_language_other.
Qed.

End ServiceExtras.

(** ** An incremental update after a full rebuild *)

Lemma upsert_all_lookup_own (items : list SearchIndexItem)
    (m : gmap (string * string) SearchIndexItem) (it : SearchIndexItem) :
  List.NoDup (List.map item_key items) -> In it items ->
  upsert_all items m !! item_key it = Some it.
Proof.
  revert m. induction items as [| a rest IH]; intros m Hnd Hin; [destruct Hin |].
  inversion Hnd as [| ? ? Hfresh Hrest]; subst. rewrite upsert_all_cons.
  destruct Hin as [-> | Hin].
  - rewrite upsert_all_lookup_other by exact Hfresh. apply lookup_insert_eq.
  - now apply IH.
Qed.

Lemma map_result_map {A B C} (f : A -> Result B) (g : B -> C) (h : A -> C)
    (l : list A) (ys : list B) :
  (forall x y, f x = Ok y -> g y = h x) ->
  map_result f l = Ok ys -> List.map g ys = List.map h l.
Proof.
  intros Hgh. revert ys. induction l as [| a rest IH]; simpl; intros ys Hok.
  - now injection Hok as <-.
  - destruct (f a) as [y0 | e] eqn:Hfa; [| discriminate].
    destruct (map_result f rest) as [ys0 | e]; [| discriminate].
    injection Hok as <-. simpl. now rewrite (Hgh a y0 Hfa), (IH ys0 eq_refl).
Qed.

Lemma NoDup_map_filter {A B} (f : A -> B) (p : A -> bool) (l : list A) :
  List.NoDup (List.map f l) -> List.NoDup (List.map f (List.filter p l)).
Proof.
  induction l as [| a rest IH]; simpl; [auto |].
  intros Hnd. inversion Hnd as [| ? ? Hfresh Hrest]; subst.
  destruct (p a); [| now apply IH]. simpl. constructor; [| now apply IH].
  intros Hin. apply Hfresh. apply in_map_iff in Hin. destruct Hin as (x & Hx & Hin).
  apply filter_In in Hin. apply in_map_iff. exists x. tauto.
Qed.

Section RebuildThenUpdate.
Context `{Translator}.
Import FulltextSearchService.

(** X20. Right after a successful [reindex] for the language of the request,
    a notification for a variant whose product is not soft-deleted changes
    nothing in the index: the incremental update agrees with the full
    rebuild (variant ids being unique in the catalog and kept by the
    translation). *)
Theorem update_after_reindex_changes_nothing ctx id v db r db1
    (Hdone : reindex (ctx_languageCode ctx) db = (Ok r, db1))
    (Hids : List.NoDup (List.map v_id (db_variants db)))
    (Hkeep : forall v tv, translateDeep v (ctx_languageCode ctx) = Ok tv -> v_id tv = v_id v)
    (Hfind : List.find (fun v => String.eqb (v_id v) id) (db_variants db) = Some v)
    (Hlive : live v = true) :
  search_index (snd (update ctx (a_ProductVariant id) db1)) = search_index db1.
Proof.
  set (lang := ctx_languageCode ctx) in *.
  pose proof (reindex_run lang db) as Hrun. simpl in Hrun. rewrite Hdone in Hrun.
  change (fun v : ProductVariant =>
            match deletedAt (product v) with Some _ => false | None => true end)
    with live in Hrun.
  destruct (map_result (fun v => translateDeep v lang) (List.filter live (db_variants db)))
    as [tvs | err] eqn:Hmap; [| discriminate].
  injection Hrun as -> ->.
  assert (Hv : In v (List.filter live (db_variants db))).
  { apply filter_In. split; [eapply find_some, Hfind | exact Hlive]. }
  destruct (map_result_forward _ _ _ Hmap v Hv) as (tv & Htv & Hf).
  assert (Hfind1 : List.find (fun v => String.eqb (v_id v) id)
                             (db_variants
                                {| db_products := db_products db;
                                   db_variants := db_variants db;
                                   search_index :=
                                     upsert_all (List.map (new_SearchIndexItem lang) tvs)
                                       (rows_not_of_language lang (search_index db));
                                   writes := (writes db ++ [OpDeleteLanguage lang])
                                             ++ [OpSave (List.map (new_SearchIndexItem lang)
                                                                  tvs)] |})
                   = Some v) by exact Hfind.
  destruct (variant_update_run ctx id v tv _ Hfind1 Hf) as (_ & -> & _).
  simpl search_index. apply insert_id.
  apply (upsert_all_lookup_own _ _ (new_SearchIndexItem lang tv)); [| now apply in_map].
  rewrite map_map. change (fun x => item_key (new_SearchIndexItem lang x))
                     with (fun x : ProductVariant => (v_id x, lang)).
  rewrite <- (map_map v_id (fun id => (id, lang))).
  apply Finite.Injective_map_NoDup; [intros a b Hab; congruence |].
  rewrite (map_result_map _ v_id v_id _ _ Hkeep Hmap).
  now apply NoDup_map_filter.
Qed.
End RebuildThenUpdate.

(* ===================================================================== *)
(** * Properties of ProductService.getProductIdsInCategory                *)
(* ===================================================================== *)

Lemma nodup_length_le (l : list string) :
  List.length (nodup string_dec l) <= List.length l.
Proof.
  induction l as [| a rest IH]; simpl; [lia |].
  destruct (in_dec string_dec a rest); simpl; lia.
Qed.

Lemma nodup_length_lt (l : list string) :
  ~ List.NoDup l -> List.length (nodup string_dec l) < List.length l.
Proof.
  induction l as [| a rest IH]; intros Hdup; [destruct Hdup; constructor |].
  simpl. destruct (in_dec string_dec a rest) as [Hin | Hout].
  - pose proof (nodup_length_le rest). lia.
  - simpl. apply -> Nat.succ_lt_mono. apply IH. intros Hnd. apply Hdup. now constructor.
Qed.

Section CategoryProducts.
Import ProductService.

Lemma group_of_In ids products pid x :
  In x (group_of ids products pid)
  <-> In x ids /\ exists p, In p products /\ p_id p = pid
                            /\ In x (List.map fv_id (p_facetValues p)).
Proof.
  unfold group_of, joined_facetValues. rewrite in_flat_map. split.
  - intros (p & Hp & Hx). apply filter_In in Hp. destruct Hp as [Hp Hpid].
    apply String.eqb_eq in Hpid. apply filter_In in Hx. destruct Hx as [Hx Hids].
    apply existsb_eqb_In in Hids. split; [exact Hids |]. exists p. tauto.
  - intros (Hids & p & Hp & Hpid & Hx). exists p. split.
    + apply filter_In. split; [exact Hp | now apply String.eqb_eq].
    + apply filter_In. split; [exact Hx | now apply existsb_eqb_In].
Qed.

(** X21. For a duplicate-free, non-empty list of facet-value ids,
    [getProductIdsInCategory] returns exactly the ids of the products that
    carry every listed facet value, each id once; soft-deleted products are
    not left out. *)
Theorem getProductIdsInCategory_is_conjunctive
    (getFacetValueIdsForCategory : ID -> Task (list ID)) categoryId ids db
    (Hids : getFacetValueIdsForCategory categoryId db = (Ok ids, db))
    (Hnonempty : ids <> []) (Hnodup : List.NoDup ids) :
  exists productIds,
    getProductIdsInCategory getFacetValueIdsForCategory categoryId db = (Ok productIds, db)
    /\ List.NoDup productIds
    /\ forall pid,
         In pid productIds
         <-> forall id, In id ids ->
               exists p, In p (db_products db) /\ p_id p = pid
                         /\ In id (List.map fv_id (p_facetValues p)).
Proof.
  exists (productIds_query ids (db_products db)).
  split; [| split].
  - unfold getProductIdsInCategory, bind, read. now rewrite Hids.
  - unfold productIds_query. apply List.NoDup_filter, NoDup_nodup.
  - intros pid. unfold productIds_query. rewrite filter_In, nodup_In, andb_true_iff,
      negb_true_iff, Nat.eqb_neq, Nat.eqb_eq.
    set (G := group_of ids (db_products db) pid).
    assert (Hincl : incl (nodup string_dec G) ids).
    { intros x Hx. apply nodup_In in Hx. apply group_of_In in Hx. tauto. }
    split.
    + intros (_ & _ & Hcount) id Hid.
      assert (Hback : incl ids (nodup string_dec G)).
      { apply NoDup_length_incl; [apply NoDup_nodup | lia | exact Hincl]. }
      pose proof (Hback id Hid) as Hin.
      apply nodup_In, group_of_In in Hin. tauto.
    + intros Hall.
      assert (Hback : incl ids (nodup string_dec G)).
      { intros x Hx. apply nodup_In, group_of_In. split; [exact Hx | now apply Hall]. }
      destruct ids as [| id0 rest]; [congruence |].
      destruct (Hall id0 (or_introl eq_refl)) as (p & Hp & Hpid & Hfv).
      split; [apply in_map_iff; exists p; tauto | split].
      * assert (Hin : In id0 G) by (apply group_of_In; split; [now left | eauto]).
        destruct G; [destruct Hin | simpl; lia].
      * apply Nat.le_antisymm.
        -- apply NoDup_incl_length; [apply NoDup_nodup | exact Hincl].
        -- apply NoDup_incl_length; [exact Hnodup | exact Hback].
Qed.

(** X22. When the list of facet-value ids holds an id twice,
    [getProductIdsInCategory] returns no product at all: the number of
    distinct facet values of a product never reaches the length of the
    list. *)
Theorem getProductIdsInCategory_with_repeated_id_is_empty
    (getFacetValueIdsForCategory : ID -> Task (list ID)) categoryId ids db
    (Hids : getFacetValueIdsForCategory categoryId db = (Ok ids, db))
    (Hrepeated : ~ List.NoDup ids) :
  getProductIdsInCategory getFacetValueIdsForCategory categoryId db = (Ok [], db).
Proof.
  unfold getProductIdsInCategory, bind, read, ret. rewrite Hids. simpl. do 2 f_equal.
  apply empty_when_no_member. intros pid Hpid. unfold productIds_query in Hpid.
  apply filter_In in Hpid. destruct Hpid as [_ Hpass].
  apply andb_true_iff in Hpass. destruct Hpass as [_ Hcount]. apply Nat.eqb_eq in Hcount.
  set (G := group_of ids (db_products db) pid) in Hcount.
  assert (Hle : List.length (nodup string_dec G) <= List.length (nodup string_dec ids)).
  { apply NoDup_incl_length; [apply NoDup_nodup |].
    intros x Hx. apply nodup_In in Hx. apply nodup_In. apply group_of_In in Hx. tauto. }
  pose proof (nodup_length_lt ids Hrepeated). lia.
Qed.
End CategoryProducts.

(* ===================================================================== *)
(** * The further properties at concrete inputs                           *)
(* ===================================================================== *)

Lemma table_A_B_AB_comma_free :
  forall it, In it table_A_B_AB -> forall id, In id (facetValueIds it) -> comma_free id = true.
Proof.
  intros it [<- | [<- | [<- | []]]] id Hin; simpl in Hin;
    repeat destruct Hin as [<- | Hin]; try reflexivity; destruct Hin.
Qed.

Lemma table_two_products_comma_free :
  forall it, In it table_two_products ->
    forall id, In id (facetValueIds it) -> comma_free id = true.
Proof.
  intros it [<- | [<- | [<- | []]]] id Hin; simpl in Hin;
    repeat destruct Hin as [<- | Hin]; try reflexivity; destruct Hin.
Qed.


Lemma grouped_results_have_distinct_products_witness :
  i_groupByProduct input_grouped = Some true
  /\ exists rows,
       @MysqlSearchStrategy.getSearchResults sample_engine sample_mapper
         sample_ctx input_grouped table_two_products
       = List.map (fun r => (r, "USD")) rows
       /\ List.NoDup (List.map (fun r => productId (raw_si r)) rows).
Proof.
  split; [reflexivity |].
  apply (@grouped_results_have_distinct_products sample_engine sample_mapper sample_ctx
           input_grouped table_two_products eq_refl).
Defined.

Lemma ranked_search_returns_exactly_the_matches_witness :
  i_term input_ranked_grouped = Some "SKU"
  /\ 3 <= String.length "SKU"
  /\ i_groupByProduct input_ranked_grouped <> Some true
  /\ (In item_AB
         (List.map raw_si
            (@getRawMany sample_engine
               (unpaginated (MysqlSearchStrategy.searchResultsQuery input_ranked_grouped))
               table_A_B_AB))
      <-> In item_AB table_A_B_AB
          /\ @term_matches sample_engine "SKU" item_AB = true
          /\ facet_filter input_ranked_grouped item_AB = true).
Proof.
  assert (Hflat : i_groupByProduct input_ranked_grouped <> Some true) by discriminate.
  split; [reflexivity | split; [simpl; lia | split; [exact Hflat |]]].
  apply (@ranked_search_returns_exactly_the_matches sample_engine input_ranked_grouped
           "SKU" table_A_B_AB item_AB eq_refl); [simpl; lia | exact Hflat].
Defined.

Lemma short_term_is_ignored_witness :
  i_term (input_with_term "z") = Some "z"
  /\ String.length "z" < 2
  /\ @MysqlSearchStrategy.getSearchResults sample_engine sample_mapper
       sample_ctx (input_with_term "z") table_A_B_AB
     = @MysqlSearchStrategy.getSearchResults sample_engine sample_mapper
         sample_ctx (without_term (input_with_term "z")) table_A_B_AB.
Proof.
  split; [reflexivity | split; [simpl; lia |]].
  apply (proj1 (@short_term_is_ignored sample_engine sample_mapper sample_ctx
                  (input_with_term "z") "z" table_A_B_AB eq_refl
                  ltac:(simpl; lia))).
Defined.

Lemma facet_filter_is_a_set_witness :
  (forall x, In x ["A"; "B"] <-> In x ["B"; "A"; "B"])
  /\ @MysqlSearchStrategy.getSearchResults sample_engine sample_mapper
       sample_ctx (with_facetIds no_input (Some ["A"; "B"])) table_A_B_AB
     = @MysqlSearchStrategy.getSearchResults sample_engine sample_mapper
         sample_ctx (with_facetIds no_input (Some ["B"; "A"; "B"])) table_A_B_AB.
Proof.
  assert (Hsame : forall x, In x ["A"; "B"] <-> In x ["B"; "A"; "B"]) by (simpl; tauto).
  split; [exact Hsame |].
  apply (proj1 (proj1 (@facet_filter_is_a_set sample_engine sample_mapper sample_ctx
                         no_input ["A"; "B"] ["B"; "A"; "B"] table_A_B_AB Hsame))).
Defined.

Lemma unranked_results_follow_requested_sort_witness :
  MysqlSearchStrategy.term_guard (i_term input_sorted_by_price) = false
  /\ i_sort input_sorted_by_price = Some {| sort_name := None; sort_price := Some ASC |}
  /\ exists rows,
       @MysqlSearchStrategy.getSearchResults sample_engine sample_mapper
         sample_ctx input_sorted_by_price table_A_B_AB
       = List.map (fun r => (r, "USD")) rows
       /\ Sorted (fun a b => (price (raw_si a) <= price (raw_si b))%Z) rows.
Proof.
  split; [reflexivity | split; [reflexivity |]].
  destruct (@unranked_results_follow_requested_sort sample_engine sample_mapper sample_ctx
              input_sorted_by_price table_A_B_AB
              {| sort_name := None; sort_price := Some ASC |} eq_refl eq_refl)
    as (rows & Hrows & _ & Hprice).
  exists rows. split; [exact Hrows |]. exact (Hprice ASC eq_refl eq_refl).
Defined.

Lemma getFacetValueIds_collects_matching_ids_witness :
  i_groupByProduct no_input <> Some true
  /\ (forall it, In it table_A_B_AB ->
        forall id, In id (facetValueIds it) -> comma_free id = true)
  /\ @Mysql_getFacetValueIds sample_engine sample_ctx no_input table_A_B_AB
     = unique (List.filter non_empty
                 (flat_map facetValueIds (@matching sample_engine no_input table_A_B_AB))).
Proof.
  assert (Hflat : i_groupByProduct no_input <> Some true) by discriminate.
  split; [exact Hflat | split; [exact table_A_B_AB_comma_free |]].
  apply (proj1 (@getFacetValueIds_collects_matching_ids sample_engine sample_ctx no_input
                  table_A_B_AB Hflat table_A_B_AB_comma_free)).
Defined.

Lemma grouped_getFacetValueIds_covers_one_product_witness :
  i_groupByProduct input_grouped = Some true
  /\ exists pid,
       forall id, In id (@Mysql_getFacetValueIds sample_engine sample_ctx input_grouped
                           table_two_products) ->
         exists it, In it (@matching sample_engine input_grouped table_two_products)
                    /\ productId it = pid /\ In id (facetValueIds it).
Proof.
  split; [reflexivity |].
  apply (@grouped_getFacetValueIds_covers_one_product sample_engine sample_ctx input_grouped
           table_two_products eq_refl table_two_products_comma_free).
Defined.

Lemma update_leaves_other_languages_witness :
  "de" <> ctx_languageCode (ctx_of "en")
  /\ search_index
       (snd (@FulltextSearchService.update sample_translator (ctx_of "en") (a_Product "P1")
               (shirt_db None shirt_index_en_de)))
       !! ("V1", "de")
     = search_index (shirt_db None shirt_index_en_de) !! ("V1", "de").
Proof.
  assert (Hother : "de" <> ctx_languageCode (ctx_of "en")) by discriminate.
  split; [exact Hother |].
  apply (@update_leaves_other_languages sample_translator (ctx_of "en") (a_Product "P1")
           (shirt_db None shirt_index_en_de) "V1" "de" Hother).
Defined.

Lemma failed_update_writes_nothing_witness :
  let db := shirt_db None shirt_index_en_de in
  let err := InternalServerError "error.entity-has-no-translation-in-language" in
  fst (@FulltextSearchService.update english_only_translator (ctx_of "de")
         (a_Product "P1") db) = Err err
  /\ snd (@FulltextSearchService.update english_only_translator (ctx_of "de")
            (a_Product "P1") db) = db.
Proof.
  intros db err.
  assert (Hfailed : fst (@FulltextSearchService.update english_only_translator (ctx_of "de")
                           (a_Product "P1") db) = Err err) by reflexivity.
  split; [exact Hfailed |].
  apply (proj1 (@failed_update_writes_nothing english_only_translator (ctx_of "de")
                  (a_Product "P1") db err Hfailed)).
Defined.

Lemma variant_update_upserts_its_record_witness :
  let db := shirt_db (Some 5%Z) ∅ in
  let v := shirt_variant "V1" "RED-M" (Some 5%Z) in
  List.find (fun v => String.eqb (v_id v) "V1") (db_variants db) = Some v
  /\ @translateDeep sample_translator v (ctx_languageCode (ctx_of "en")) = Ok v
  /\ search_index
       (snd (@FulltextSearchService.update sample_translator (ctx_of "en")
               (a_ProductVariant "V1") db))
     = <[("V1", "en") := FulltextSearchService.new_SearchIndexItem "en" v]> (search_index db).
Proof.
  intros db v. split; [reflexivity | split; [reflexivity |]].
  apply (proj1 (proj2 (@variant_update_upserts_its_record sample_translator (ctx_of "en")
                         "V1" v v db eq_refl eq_refl))).
Defined.

Lemma update_for_missing_entity_is_noop_witness :
  List.find (fun p => String.eqb (p_id p) "P7")
            (db_products (shirt_db None shirt_index_en_de)) = None
  /\ @FulltextSearchService.update sample_translator (ctx_of "en") (a_Product "P7")
       (shirt_db None shirt_index_en_de)
     = (Ok tt, shirt_db None shirt_index_en_de).
Proof.
  split; [reflexivity |].
  apply (proj1 (@update_for_missing_entity_is_noop sample_translator (ctx_of "en") "P7"
                  (shirt_db None shirt_index_en_de)) eq_refl).
Defined.

Lemma live_product_update_indexes_every_variant_witness :
  let db := shirt_db None ∅ in
  List.find (fun p => String.eqb (p_id p) "P1") (db_products db) = Some (shirt None)
  /\ deletedAt (shirt None) = None
  /\ map_result (fun v => @translateDeep sample_translator v (ctx_languageCode (ctx_of "en")))
       (List.filter (fun v => existsb (String.eqb (v_id v))
                                      (List.map v_id (variants_of (shirt None) db)))
                    (db_variants db))
     = Ok (db_variants db)
  /\ forall v, In v (variants_of (shirt None) db) ->
       exists tv, @translateDeep sample_translator v (ctx_languageCode (ctx_of "en")) = Ok tv
                  /\ is_Some (search_index
                                (snd (@FulltextSearchService.update sample_translator
                                        (ctx_of "en") (a_Product "P1") db))
                              !! (v_id tv, ctx_languageCode (ctx_of "en"))).
Proof.
  intros db. split; [reflexivity | split; [reflexivity | split; [reflexivity |]]].
  apply (proj1 (proj2 (@live_product_update_indexes_every_variant sample_translator
                         (ctx_of "en") "P1" (shirt None) (db_variants db) db
                         eq_refl eq_refl eq_refl))).
Defined.

Lemma reindex_leaves_other_languages_witness :
  "de" <> "en"
  /\ search_index (snd (@FulltextSearchService.reindex sample_translator "en"
                          (shirt_db None shirt_index_en_de)))
       !! ("V1", "de")
     = search_index (shirt_db None shirt_index_en_de) !! ("V1", "de").
Proof.
  assert (Hother : "de" <> "en") by discriminate.
  split; [exact Hother |].
  apply (@reindex_leaves_other_languages sample_translator "en"
           (shirt_db None shirt_index_en_de) "V1" "de" Hother).
Defined.

Lemma reindex_rebuilds_language_from_live_variants_witness :
  let db := shirt_db None shirt_index_en_de in
  let run := @FulltextSearchService.reindex sample_translator "en" db in
  run = (Ok {| success := true; indexedItemCount := 2 |}, snd run)
  /\ size (rows_of_language "en" (search_index (snd run))) <= 2.
Proof.
  intros db run.
  assert (Hdone : run = (Ok {| success := true; indexedItemCount := 2 |}, snd run))
    by reflexivity.
  split; [exact Hdone |].
  apply (proj2 (proj2 (proj2 (@reindex_rebuilds_language_from_live_variants
                                sample_translator "en" db _ _ Hdone)))).
Defined.

Lemma failed_reindex_leaves_language_empty_witness :
  let db := shirt_db None shirt_index_en_de in
  let err := InternalServerError "error.entity-has-no-translation-in-language" in
  let run := @FulltextSearchService.reindex english_only_translator "de" db in
  run = (Err err, snd run)
  /\ forall vid, search_index (snd run) !! (vid, "de") = None.
Proof.
  intros db err run.
  assert (Hfailed : run = (Err err, snd run)) by reflexivity.
  split; [exact Hfailed |].
  apply (proj1 (@failed_reindex_leaves_language_empty english_only_translator "de" db
                  err (snd run) Hfailed)).
Defined.

Lemma update_after_reindex_changes_nothing_witness :
  let db := shirt_db None shirt_index_en_de in
  let run := @FulltextSearchService.reindex sample_translator "en" db in
  run = (Ok {| success := true; indexedItemCount := 2 |}, snd run)
  /\ List.NoDup (List.map v_id (db_variants db))
  /\ search_index
       (snd (@FulltextSearchService.update sample_translator (ctx_of "en")
               (a_ProductVariant "V2") (snd run)))
     = search_index (snd run).
Proof.
  intros db run.
  assert (Hdone : @FulltextSearchService.reindex sample_translator
                    (ctx_languageCode (ctx_of "en")) db
                  = (Ok {| success := true; indexedItemCount := 2 |}, snd run))
    by reflexivity.
  assert (Hids : List.NoDup (List.map v_id (db_variants db))).
  { cbn. constructor; [intros [Hin | []]; discriminate |].
    constructor; [intros [] | constructor]. }
  assert (Hkeep : forall v tv,
             @translateDeep sample_translator v (ctx_languageCode (ctx_of "en")) = Ok tv ->
             v_id tv = v_id v).
  { intros v tv Htv. simpl in Htv. now injection Htv as ->. }
  split; [exact Hdone | split; [exact Hids |]].
  apply (@update_after_reindex_changes_nothing sample_translator (ctx_of "en") "V2"
           (shirt_variant "V2" "RED-L" None) db _ _ Hdone Hids Hkeep eq_refl eq_refl).
Defined.

Lemma getProductIdsInCategory_is_conjunctive_witness :
  let db := shirt_db (Some 5%Z) ∅ in
  category_with ["31"; "11"] "C1" db = (Ok ["31"; "11"], db)
  /\ ["31"; "11"] <> []
  /\ List.NoDup ["31"; "11"]
  /\ exists productIds,
       ProductService.getProductIdsInCategory (category_with ["31"; "11"]) "C1" db
       = (Ok productIds, db)
       /\ List.NoDup productIds
       /\ forall pid,
            In pid productIds
            <-> forall id, In id ["31"; "11"] ->
                  exists p, In p (db_products db) /\ p_id p = pid
                            /\ In id (List.map fv_id (p_facetValues p)).
Proof.
  intros db.
  assert (Hne : ["31"; "11"] <> []) by discriminate.
  assert (Hnd : List.NoDup ["31"; "11"]).
  { cbn. constructor; [intros [Hin | []]; discriminate |].
    constructor; [intros [] | constructor]. }
  split; [reflexivity | split; [exact Hne | split; [exact Hnd |]]].
  apply (getProductIdsInCategory_is_conjunctive (category_with ["31"; "11"]) "C1"
           ["31"; "11"] db eq_refl Hne Hnd).
Defined.

Lemma getProductIdsInCategory_with_repeated_id_is_empty_witness :
  let db := shirt_db None ∅ in
  category_with ["11"; "11"] "C1" db = (Ok ["11"; "11"], db)
  /\ ~ List.NoDup ["11"; "11"]
  /\ ProductService.getProductIdsInCategory (category_with ["11"; "11"]) "C1" db
     = (Ok [], db).
Proof.
  intros db.
  assert (Hrep : ~ List.NoDup ["11"; "11"]).
  { intros Hnd. inversion Hnd as [| ? ? Hfresh _]. apply Hfresh. now left. }
  split; [reflexivity | split; [exact Hrep |]].
  apply (getProductIdsInCategory_with_repeated_id_is_empty (category_with ["11"; "11"])
           "C1" ["11"; "11"] db eq_refl Hrep).
Defined.
